(** * Doris BE: schema-variables scanner and streaming-aggregation source operator

    A shallow embedding of

    - [be/src/exec/schema_scanner/schema_variables_scanner.cpp]
      ([SchemaVariablesScanner::get_next_block], [_fill_block_impl]);
    - the streaming aggregation source operator of the pipeline engine
      ([StreamingAggSourceOperator::can_read], [::get_block]);

    together with the collaborators those functions call ([Status],
    [vectorized::Block], [DataQueue], [ExecNode]). *)

From Stdlib Require Import String ZArith Bool Arith Lia List Permutation.
From Stdlib Require DecimalString DecimalZ DecimalPos.
Import ListNotations.
Open Scope string_scope.
Open Scope list_scope.

Set Implicit Arguments.

(** ** Status *)

(** Modelled from the spec: [Status] is declared in [common/status.h],
    which is not part of the sources at hand.  A status is OK or a failure
    with its kind and message; the kinds are the ones of the error
    taxonomy: invalid argument, internal error, upstream failure,
    cancelled. *)
Inductive ErrorKind : Type :=
| INVALID_ARGUMENT
| INTERNAL_ERROR
| UPSTREAM_FAILURE
| CANCELLED.

Inductive Status : Type :=
| OK
| Failed (kind : ErrorKind) (msg : string).

(** [Status::InternalError(msg)] and [Status::InvalidArgument(msg)]. *)
Definition InternalError (msg : string) : Status := Failed INTERNAL_ERROR msg.
Definition InvalidArgument (msg : string) : Status := Failed INVALID_ARGUMENT msg.

(** [Status::ok()]. *)
Definition ok (st : Status) : bool :=
  match st with OK => true | Failed _ _ => false end.

Definition error_kind (st : Status) : option ErrorKind :=
  match st with OK => None | Failed k _ => Some k end.

(** ** SchemaVariablesScanner *)

Module SchemaVariablesScanner.

Inductive PrimitiveType : Type := TYPE_VARCHAR.

(** [SchemaScanner::ColumnDesc]: name, type, size, is_null. *)
Record ColumnDesc : Type := mkColumnDesc {
  name : string;
  type : PrimitiveType;
  size : Z;
  is_null : bool
}.

(** A [StringRef(ptr, len)] built from a [std::string] is the characters
    of that string. *)
Definition StringRef : Type := string.

(** The scanner fields that [get_next_block] reads: the [_is_init] flag of
    the [SchemaScanner] base and [_var_result.variables], a
    [std::map<std::string, std::string>] listed in iteration order. *)
Record Scanner : Type := mkScanner {
  _is_init : bool;
  variables : list (string * string)
}.

Section WithBlock.

(** [vectorized::Block], [sizeof(StringRef)] and
    [SchemaScanner::fill_dest_column] come from headers and from the
    base class; the scanner is generic in them.  [fill_dest_column]
    returns a status, which [_fill_block_impl] drops. *)
Variable Block : Type.
Variable sizeof_StringRef : Z.
Variable fill_dest_column : Block -> StringRef -> ColumnDesc -> Status * Block.

Definition _s_vars_columns : list ColumnDesc :=
  [ mkColumnDesc "VARIABLE_NAME" TYPE_VARCHAR sizeof_StringRef false;
    mkColumnDesc "VARIABLE_VALUE" TYPE_VARCHAR sizeof_StringRef false ].

(** [_s_vars_columns[i]] for the two indices the code uses. *)
Definition _s_vars_columns_at (i : nat) : ColumnDesc :=
  nth i _s_vars_columns
      (mkColumnDesc "" TYPE_VARCHAR 0 false).

(** One [for (auto& it : _var_result.variables)] loop: [proj] picks
    [it.first] or [it.second]. *)
Fixpoint fill_loop (proj : string * string -> string) (col : ColumnDesc)
         (vars : list (string * string)) (block : Block) : Block :=
  match vars with
  | [] => block
  | it :: rest =>
      let str : StringRef := proj it in
      fill_loop proj col rest (snd (fill_dest_column block str col))
  end.

Definition _fill_block_impl (s : Scanner) (block : Block) : Status * Block :=
  (* variables names *)
  let block := fill_loop fst (_s_vars_columns_at 0) (variables s) block in
  (* value *)
  let block := fill_loop snd (_s_vars_columns_at 1) (variables s) block in
  (OK, block).

(** What a call leaves behind: the returned status, the block behind
    [block] and the flag behind [eos].  A null pointer is [None]. *)
Record Result : Type := mkResult {
  status : Status;
  block_after : option Block;
  eos_after : option bool
}.

Definition is_empty {A : Type} (l : list A) : bool :=
  match l with [] => true | _ :: _ => false end.

Definition get_next_block (s : Scanner) (block : option Block)
           (eos : option bool) : Result :=
  if negb (_is_init s) then
    mkResult (InternalError "call this before initial.") block eos
  else
    match block, eos with
    | Some b, Some _ =>
        (* *eos = true; *)
        let eos := Some true in
        if is_empty (variables s) then
          mkResult OK (Some b) eos
        else
          let (st, b') := _fill_block_impl s b in
          mkResult st (Some b') eos
    | _, _ =>
        mkResult (InternalError "invalid parameter.") block eos
    end.

End WithBlock.

(** A block of two string columns, with a [fill_dest_column] that
    appends to the column named by the descriptor; used to run the
    scanner on concrete inputs. *)
Module Sample.
Definition Block : Type := (list string * list string)%type.

Definition fill_dest_column (b : Block) (str : StringRef) (col : ColumnDesc)
  : Status * Block :=
  if String.eqb (name col) "VARIABLE_NAME"
  then (OK, (fst b ++ [str], snd b))
  else (OK, (fst b, snd b ++ [str])).

Definition run := get_next_block 16 fill_dest_column.
End Sample.

End SchemaVariablesScanner.

(** ** Batch ([vectorized::Block]) *)

Module Batch.

(** Modelled from the spec: [vectorized::Block] is declared in
    [vec/core/block.h], which is not part of the sources at hand.  A batch
    is an ordered sequence of columns; a column has its row data and the
    capacity allocated for it.  [swap] exchanges the column storage of two
    batches.  [clear_column_data n] leaves the batch with exactly its first
    [n] columns, the materialized slots of the producing stage, each without
    rows and with its capacity kept; a column beyond them is dropped, so no
    row of an earlier use is left in the batch. *)
Record Column : Type := mkColumn {
  cells : list Z;
  capacity : nat
}.

Definition t : Type := list Column.

Definition rows (b : t) : nat :=
  match b with
  | [] => 0
  | c :: _ => length (cells c)
  end.

Definition swap (a b : t) : t * t := (b, a).

Definition clear_column (c : Column) : Column := mkColumn [] (capacity c).

Definition clear_column_data (n_columns : nat) (b : t) : t :=
  map clear_column (firstn n_columns b).


End Batch.

Definition Block : Type := Batch.t.

(** ** BlockQueue ([DataQueue]) *)

Module BlockQueue.

Section Queue.

Variable B : Type.

(** Modelled from the spec: the [DataQueue] class is declared and defined
    in [pipeline/exec/data_queue.{h,cpp}], which are not part of the sources
    at hand.  The queue holds a FIFO sequence of ready batches, a free-list
    of reusable batches, the producer-finished flag, the consumer-detached
    flag and its capacity. *)
Record t : Type := mk {
  ready : list B;
  free_list : list B;
  producer_finished : bool;
  consumer_detached : bool;
  capacity : nat
}.

Definition create (cap : nat) : t := mk [] [] false false cap.

Definition set_ready (q : t) (r : list B) : t :=
  mk r (free_list q) (producer_finished q) (consumer_detached q) (capacity q).

Definition set_free_list (q : t) (f : list B) : t :=
  mk (ready q) f (producer_finished q) (consumer_detached q) (capacity q).

(** Modelled from the spec: [push_ready] inserts at the tail of the ready
    sequence, and rejects the batch (the caller retries later) when the
    queue is at capacity.  Once the producer has marked itself finished the
    queue takes no further batch: an exhausted queue stays exhausted.  The
    boolean tells whether the batch was taken. *)
Definition push_ready (q : t) (b : B) : bool * t :=
  if negb (producer_finished q) && Nat.ltb (length (ready q)) (capacity q)
  then (true, set_ready q (ready q ++ [b]))
  else (false, q).

(** Modelled from the spec: [try_pop_ready] removes and returns the head of
    the ready sequence if it is non-empty. *)
Definition try_pop_ready (q : t) : option B * t :=
  match ready q with
  | [] => (None, q)
  | b :: rest => (Some b, set_ready q rest)
  end.

(** Modelled from the spec: [push_free] returns an emptied batch to the
    free-list, [try_pop_free] takes one from it if there is one. *)
Definition push_free (q : t) (b : B) : t :=
  set_free_list q (b :: free_list q).

Definition try_pop_free (q : t) : option B * t :=
  match free_list q with
  | [] => (None, q)
  | b :: rest => (Some b, set_free_list q rest)
  end.

(** Modelled from the spec: [mark_producer_finished] sets the finished
    flag. *)
Definition mark_producer_finished (q : t) : t :=
  mk (ready q) (free_list q) true (consumer_detached q) (capacity q).

Definition ready_is_empty (q : t) : bool :=
  match ready q with [] => true | _ :: _ => false end.

(** Modelled from the spec: [is_exhausted] is true iff the finished flag is
    set and the ready sequence is empty. *)
Definition is_exhausted (q : t) : bool :=
  producer_finished q && ready_is_empty q.

(** Modelled from the spec: [has_data_or_finished] is true if there is a
    batch to consume or the queue is exhausted. *)
Definition has_data_or_finished (q : t) : bool :=
  negb (ready_is_empty q) || is_exhausted q.

(** The operations as data, to speak about sequences of them. *)
Inductive Op : Type :=
| PushReady (b : B)
| TryPopReady
| PushFree (b : B)
| TryPopFree
| MarkProducerFinished.

Definition apply (q : t) (op : Op) : t :=
  match op with
  | PushReady b => snd (push_ready q b)
  | TryPopReady => snd (try_pop_ready q)
  | PushFree b => push_free q b
  | TryPopFree => snd (try_pop_free q)
  | MarkProducerFinished => mark_producer_finished q
  end.

Definition run (q : t) (ops : list Op) : t := fold_left apply ops q.

(** What a sequence of operations shows from outside: the batches the
    queue took, in push order, and the batches it handed out, in pop
    order. *)
Fixpoint observed (q : t) (ops : list Op) : list B * list B :=
  match ops with
  | [] => ([], [])
  | op :: rest =>
      let (taken, handed) := observed (apply q op) rest in
      match op with
      | PushReady b =>
          if fst (push_ready q b) then (b :: taken, handed) else (taken, handed)
      | TryPopReady =>
          match fst (try_pop_ready q) with
          | Some b => (taken, b :: handed)
          | None => (taken, handed)
          end
      | _ => (taken, handed)
      end
  end.

Definition is_push (op : Op) : bool :=
  match op with PushReady _ => true | _ => false end.


End Queue.

Arguments create {B} cap.
Arguments TryPopReady {B}.
Arguments TryPopFree {B}.
Arguments MarkProducerFinished {B}.

End BlockQueue.

(** ** Ownership of batches around one queue *)

Module Ownership.

Section Stages.

(** A batch is a heap object behind a move-only handle; [B] is the type of
    these objects, compared by identity. *)
Variable B : Type.
Variable B_eq_dec : forall x y : B, {x = y} + {x <> y}.

(** Modelled from the spec: the producer stage and the consumer stage
    around one queue.  Each stage holds some batches; [pushed] and [popped]
    record, in order, the batches the queue took and the batches it handed
    to the consumer. *)
Record System : Type := mkSystem {
  producer : list B;
  queue : BlockQueue.t B;
  consumer : list B;
  pushed : list B;
  popped : list B
}.

Definition init (batches : list B) (cap : nat) : System :=
  mkSystem batches (BlockQueue.create cap) [] [] [].

Inductive Action : Type :=
| ProducerPush (b : B)      (* push_ready of a batch the producer holds *)
| ConsumerPop               (* try_pop_ready *)
| ConsumerRecycle (b : B)   (* push_free of a batch the consumer holds *)
| ProducerReuse             (* try_pop_free *)
| ProducerFinish.           (* mark_producer_finished *)

Definition holds (l : list B) (b : B) : bool :=
  if in_dec B_eq_dec b l then true else false.

(** One action.  A stage can only hand over a batch it holds: an action
    that names a batch the stage does not hold is not possible ([None]).  A
    rejected push leaves the batch with the producer. *)
Definition act (s : System) (a : Action) : option System :=
  match a with
  | ProducerPush b =>
      if holds (producer s) b then
        match BlockQueue.push_ready (queue s) b with
        | (true, q') =>
            Some (mkSystem (remove B_eq_dec b (producer s)) q' (consumer s)
                           (pushed s ++ [b]) (popped s))
        | (false, q') =>
            Some (mkSystem (producer s) q' (consumer s) (pushed s) (popped s))
        end
      else None
  | ConsumerPop =>
      match BlockQueue.try_pop_ready (queue s) with
      | (Some b, q') =>
          Some (mkSystem (producer s) q' (b :: consumer s)
                         (pushed s) (popped s ++ [b]))
      | (None, q') =>
          Some (mkSystem (producer s) q' (consumer s) (pushed s) (popped s))
      end
  | ConsumerRecycle b =>
      if holds (consumer s) b then
        Some (mkSystem (producer s) (BlockQueue.push_free (queue s) b)
                       (remove B_eq_dec b (consumer s)) (pushed s) (popped s))
      else None
  | ProducerReuse =>
      match BlockQueue.try_pop_free (queue s) with
      | (Some b, q') =>
          Some (mkSystem (b :: producer s) q' (consumer s) (pushed s) (popped s))
      | (None, q') =>
          Some (mkSystem (producer s) q' (consumer s) (pushed s) (popped s))
      end
  | ProducerFinish =>
      Some (mkSystem (producer s) (BlockQueue.mark_producer_finished (queue s))
                     (consumer s) (pushed s) (popped s))
  end.

Fixpoint exec (s : System) (acts : list Action) : option System :=
  match acts with
  | [] => Some s
  | a :: rest =>
      match act s a with
      | Some s' => exec s' rest
      | None => None
      end
  end.

Inductive Holder : Type := AtProducer | InReady | AtConsumer | InFreeList.

(** Everything that is held somewhere, place by place. *)
Definition held (s : System) : list B :=
  producer s ++ BlockQueue.ready (queue s) ++ consumer s
           ++ BlockQueue.free_list (queue s).

(** The places where [b] is found, with multiplicity. *)
Definition holders (s : System) (b : B) : list Holder :=
  repeat AtProducer (count_occ B_eq_dec (producer s) b)
  ++ repeat InReady (count_occ B_eq_dec (BlockQueue.ready (queue s)) b)
  ++ repeat AtConsumer (count_occ B_eq_dec (consumer s) b)
  ++ repeat InFreeList (count_occ B_eq_dec (BlockQueue.free_list (queue s)) b).

(** How often [x] is held, over the four places. *)
Definition total (s : System) (x : B) : nat :=
  count_occ B_eq_dec (producer s) x
  + count_occ B_eq_dec (BlockQueue.ready (queue s)) x
  + count_occ B_eq_dec (consumer s) x
  + count_occ B_eq_dec (BlockQueue.free_list (queue s)) x.

(** The invariant of the system: every batch is held as often as it was
    handed to the producer at the start, and what was popped, followed by
    what is still ready, is what was pushed. *)
Definition invariant (batches : list B) (s : System) : Prop :=
  (forall x, total s x = count_occ B_eq_dec batches x)
  /\ popped s ++ BlockQueue.ready (queue s) = pushed s.

End Stages.

Arguments ConsumerPop {B}.
Arguments ProducerReuse {B}.
Arguments ProducerFinish {B}.

End Ownership.

(** ** StreamingAggSourceOperator *)

(** Modelled from the spec: [SourceState] is declared in
    [pipeline/exec/operator.h], which is not part of the sources at hand;
    the result of one pull step is one of three states. *)
Inductive SourceState : Type :=
| RUNNING
| DEPEND_ON_SOURCE
| FINISHED.

(** The interface of [DataQueue] that the operator calls.  The queue class
    itself is not among the sources, so the operator is generic in it.
    [get_block_from_queue(&agg_block)] returns its status, the holder it
    left in [agg_block] (null is [None]) and the queue after the call. *)
Class DataQueue (Q : Type) : Type := {
  has_data_or_finished : Q -> bool;
  data_exhausted : Q -> bool;
  get_block_from_queue : Q -> Status * option Block * Q;
  push_free_block : Q -> Block -> Q
}.

(** What [_node->pull(state, block, &eos)] leaves behind.  [eos] is false
    when [get_block] calls [pull], and [pull_eos] is its value after the
    call. *)
Record PullResult (N RS : Type) : Type := mkPullResult {
  pull_status : Status;
  pull_node : N;
  pull_state : RS;
  pull_block : Block;
  pull_eos : bool
}.

(** The interface of the legacy [ExecNode] that the operator calls: the
    virtual [pull], and [row_desc().num_materialized_slots()]. *)
Class ExecNode (N RS : Type) : Type := {
  pull : N -> RS -> Block -> PullResult N RS;
  num_materialized_slots : N -> nat
}.

Module StreamingAggSourceOperator.

(** The calls a step makes on its collaborators, in order. *)
Inductive Event : Type :=
| Call_get_block_from_queue (st : Status) (agg_block : option Block)
| Call_pull (st : Status) (eos : bool)
| Call_swap (agg_block : Block)
| Call_clear_column_data (n : nat)
| Call_push_free_block (agg_block : Block).

Definition is_queue_pop (ev : Event) : bool :=
  match ev with Call_get_block_from_queue _ _ => true | _ => false end.

Definition is_pull (ev : Event) : bool :=
  match ev with Call_pull _ _ => true | _ => false end.

(** Whether a call reported status [st], and how many pops and pulls a
    trace has. *)
Definition reported (ev : Event) (st : Status) : Prop :=
  match ev with
  | Call_get_block_from_queue s _ => s = st
  | Call_pull s _ => s = st
  | _ => False
  end.

Definition pops (tr : list Event) : nat := length (filter is_queue_pop tr).
Definition pulls (tr : list Event) : nat := length (filter is_pull tr).

Section Operator.

Context {Q N RS : Type} `{DataQueue Q} `{ExecNode N RS}.

(** Everything a call of [get_block] can read or write: the operator's
    [_data_queue] and [_node], and the objects behind the arguments
    [state], [block] and [source_state]. *)
Record Env : Type := mkEnv {
  _data_queue : Q;
  _node : N;
  state : RS;
  block : Block;
  source_state : SourceState
}.

(** A computation inside [get_block] goes on with a value, returns from
    the function with a status, or dereferences a null holder. *)
Inductive Res (A : Type) : Type :=
| Val (a : A) (e : Env) (tr : list Event)
| Return (st : Status) (e : Env) (tr : list Event)
| NullDeref (e : Env) (tr : list Event).

Arguments Return {A} st e tr.
Arguments NullDeref {A} e tr.

Definition M (A : Type) : Type := Env -> Res A.

Definition ret {A : Type} (a : A) : M A := fun e => Val a e [].

Definition bind {A C : Type} (m : M A) (k : A -> M C) : M C :=
  fun e =>
    match m e with
    | Val a e1 tr1 =>
        match k a e1 with
        | Val c e2 tr2 => Val c e2 (tr1 ++ tr2)
        | Return st e2 tr2 => Return st e2 (tr1 ++ tr2)
        | NullDeref e2 tr2 => NullDeref e2 (tr1 ++ tr2)
        end
    | Return st e1 tr1 => Return st e1 tr1
    | NullDeref e1 tr1 => NullDeref e1 tr1
    end.

Notation "x <- m ;; k" := (bind m (fun x => k))
  (at level 61, m at next level, right associativity).
Notation "m ;;; k" := (bind m (fun _ => k))
  (at level 61, right associativity).

(** [RETURN_IF_ERROR(stmt)]: leave the function with the status of [stmt]
    unless it is OK. *)
Definition RETURN_IF_ERROR (st : Status) : M unit :=
  fun e => if ok st then Val tt e [] else Return st e [].

Definition return_ (st : Status) : M Status := fun e => Return st e [].

(** [_data_queue->data_exhausted()]. *)
Definition queue_data_exhausted : M bool :=
  fun e => Val (data_exhausted (_data_queue e)) e [].

(** [_data_queue->get_block_from_queue(&agg_block)]. *)
Definition queue_get_block_from_queue : M (Status * option Block) :=
  fun e =>
    let '(st, agg_block, q') := get_block_from_queue (_data_queue e) in
    Val (st, agg_block)
        (mkEnv q' (_node e) (state e) (block e) (source_state e))
        [Call_get_block_from_queue st agg_block].

(** [_node->pull(state, block, &eos)]. *)
Definition node_pull : M (Status * bool) :=
  fun e =>
    let r := pull (_node e) (state e) (block e) in
    Val (pull_status r, pull_eos r)
        (mkEnv (_data_queue e) (pull_node r) (pull_state r) (pull_block r)
               (source_state e))
        [Call_pull (pull_status r) (pull_eos r)].

(** [block->swap( *agg_block )]: the holder gets what [block] had. *)
Definition block_swap (agg_block : option Block) : M Block :=
  fun e =>
    match agg_block with
    | None => NullDeref e []
    | Some a =>
        let (block', agg_block') := Batch.swap (block e) a in
        Val agg_block'
            (mkEnv (_data_queue e) (_node e) (state e) block' (source_state e))
            [Call_swap a]
    end.

(** [_node->row_desc().num_materialized_slots()]. *)
Definition node_num_materialized_slots : M nat :=
  fun e => Val (num_materialized_slots (_node e)) e [].

(** [agg_block->clear_column_data(n)]. *)
Definition block_clear_column_data (agg_block : Block) (n : nat) : M Block :=
  fun e => Val (Batch.clear_column_data n agg_block) e [Call_clear_column_data n].

(** [_data_queue->push_free_block(std::move(agg_block))]. *)
Definition queue_push_free_block (agg_block : Block) : M unit :=
  fun e =>
    Val tt
        (mkEnv (push_free_block (_data_queue e) agg_block) (_node e) (state e)
               (block e) (source_state e))
        [Call_push_free_block agg_block].

Definition set_source_state (s : SourceState) : M unit :=
  fun e => Val tt (mkEnv (_data_queue e) (_node e) (state e) (block e) s) [].

(** [StreamingAggSourceOperator::can_read]. *)
Definition can_read (e : Env) : bool :=
  has_data_or_finished (_data_queue e).

(** [StreamingAggSourceOperator::get_block].  The scoped timer only feeds
    the profile and is left out. *)
Definition get_block_body : M Status :=
  let eos := false in
  exhausted <- queue_data_exhausted ;;
  eos <- (if negb exhausted then
            r <- queue_get_block_from_queue ;;
            let '(st, agg_block) := r in
            RETURN_IF_ERROR st ;;;
            exhausted <- queue_data_exhausted ;;
            if exhausted then
              r <- node_pull ;;
              let '(st, eos) := r in
              RETURN_IF_ERROR st ;;;
              ret eos
            else
              agg_block <- block_swap agg_block ;;
              n <- node_num_materialized_slots ;;
              agg_block <- block_clear_column_data agg_block n ;;
              queue_push_free_block agg_block ;;;
              ret eos
          else
            r <- node_pull ;;
            let '(st, eos) := r in
            RETURN_IF_ERROR st ;;;
            ret eos) ;;
  set_source_state (if eos : bool then FINISHED else DEPEND_ON_SOURCE) ;;;
  return_ OK.

(** How a call ends: it returns a status, or it runs into a null
    holder. *)
Inductive Outcome : Type :=
| Returned (st : Status) (e : Env) (tr : list Event)
| Crashed (e : Env) (tr : list Event).

Definition get_block (e : Env) : Outcome :=
  match get_block_body e with
  | Val st e' tr => Returned st e' tr
  | Return st e' tr => Returned st e' tr
  | NullDeref e' tr => Crashed e' tr
  end.

(** What a pull made from environment [e] over queue [q] leaves behind. *)
Definition after_pull (e : Env) (q : Q) (ss : SourceState) : Env :=
  let r := pull (_node e) (state e) (block e) in
  mkEnv q (pull_node r) (pull_state r) (pull_block r) ss.

Definition pull_event (e : Env) : Event :=
  let r := pull (_node e) (state e) (block e) in
  Call_pull (pull_status r) (pull_eos r).

Definition state_of_eos (eos : bool) : SourceState :=
  if eos then FINISHED else DEPEND_ON_SOURCE.

(** The ways through [get_block]: where the queue stands at entry, what
    the pop returns, where the queue stands after it, and whether the pull
    succeeds. *)
Inductive Path (e : Env) : Type :=
| PathExhaustedOk :
    data_exhausted (_data_queue e) = true ->
    pull_status (pull (_node e) (state e) (block e)) = OK -> Path e
| PathExhaustedFailed :
    data_exhausted (_data_queue e) = true ->
    ok (pull_status (pull (_node e) (state e) (block e))) = false -> Path e
| PathPopFailed st agg_block q' :
    data_exhausted (_data_queue e) = false ->
    get_block_from_queue (_data_queue e) = (st, agg_block, q') ->
    ok st = false -> Path e
| PathDrainedOk agg_block q' :
    data_exhausted (_data_queue e) = false ->
    get_block_from_queue (_data_queue e) = (OK, agg_block, q') ->
    data_exhausted q' = true ->
    pull_status (pull (_node e) (state e) (block e)) = OK -> Path e
| PathDrainedFailed agg_block q' :
    data_exhausted (_data_queue e) = false ->
    get_block_from_queue (_data_queue e) = (OK, agg_block, q') ->
    data_exhausted q' = true ->
    ok (pull_status (pull (_node e) (state e) (block e))) = false -> Path e
| PathSwapped b q' :
    data_exhausted (_data_queue e) = false ->
    get_block_from_queue (_data_queue e) = (OK, Some b, q') ->
    data_exhausted q' = false -> Path e
| PathNullHolder q' :
    data_exhausted (_data_queue e) = false ->
    get_block_from_queue (_data_queue e) = (OK, None, q') ->
    data_exhausted q' = false -> Path e.

End Operator.

Arguments Env : clear implicits.
Arguments Outcome : clear implicits.

End StreamingAggSourceOperator.

(** ** The operator bound to a [BlockQueue] *)

(** Modelled from the spec: the [DataQueue] class is not among the sources.
    The queue as the operator holds it is the block queue above together
    with the flag behind [data_exhausted()].  The flag is raised by the pop
    that drains the queue to exhaustion, the one that finds the ready
    sequence empty after the producer has finished, and it is never
    lowered; a pop that hands over a batch leaves it as it is. *)
Record DataQueueState : Type := mkDataQueue {
  blocks : BlockQueue.t Block;
  _data_exhausted : bool
}.

(** Modelled from the spec: the [DataQueue] member functions the operator
    calls.  [has_data_or_finished] is the readiness probe of the block
    queue, [get_block_from_queue] is [try_pop_ready] (which reports no
    failure of its own) and [push_free_block] is [push_free]. *)
#[export] Instance BlockQueue_DataQueue : DataQueue DataQueueState := {
  has_data_or_finished q := BlockQueue.has_data_or_finished (blocks q);
  data_exhausted := _data_exhausted;
  get_block_from_queue q :=
    match BlockQueue.try_pop_ready (blocks q) with
    | (Some b, q') => (OK, Some b, mkDataQueue q' (_data_exhausted q))
    | (None, q') =>
        (OK, None,
         mkDataQueue q' (_data_exhausted q || BlockQueue.is_exhausted q'))
    end;
  push_free_block q b :=
    mkDataQueue (BlockQueue.push_free (blocks q) b) (_data_exhausted q)
}.

(** A legacy node for running scenarios: it holds the batches it still has
    to deliver, hands over one per [pull], and reports end-of-stream with an
    empty batch once it has none left.  [slots] is its number of
    materialized slots. *)
Record ScriptedNode : Type := mkScriptedNode {
  pending : list Block;
  slots : nat
}.

Definition scripted_pull (n : ScriptedNode) (rs : unit) (b : Block)
  : PullResult ScriptedNode unit :=
  match pending n with
  | [] => mkPullResult OK n rs [] true
  | x :: rest => mkPullResult OK (mkScriptedNode rest (slots n)) rs x false
  end.

#[export] Instance ScriptedNode_ExecNode : ExecNode ScriptedNode unit := {
  pull := scripted_pull;
  num_materialized_slots := slots
}.

(** A queue whose pop fails, and a node whose pull fails: the two failures
    a step can meet. *)
Record FailingQueue : Type := mkFailingQueue {
  fq_exhausted : bool;
  fq_pops : nat
}.

#[export] Instance FailingQueue_DataQueue : DataQueue FailingQueue := {
  has_data_or_finished _ := true;
  data_exhausted := fq_exhausted;
  get_block_from_queue q :=
    (Failed CANCELLED "queue cancelled", None,
     mkFailingQueue (fq_exhausted q) (S (fq_pops q)));
  push_free_block q _ := q
}.

Record FailingNode : Type := mkFailingNode {
  fn_pulls : nat
}.

#[export] Instance FailingNode_ExecNode : ExecNode FailingNode unit := {
  pull n rs b :=
    mkPullResult (Failed UPSTREAM_FAILURE "pull failed")
                 (mkFailingNode (S (fn_pulls n))) rs b false;
  num_materialized_slots _ := 0
}.

(** A column of [n] rows and a one-column batch of [n] rows. *)
Definition column_of_rows (n : nat) (v : Z) : Batch.Column :=
  Batch.mkColumn (repeat v n) n.

Definition batch_of_rows (n : nat) (v : Z) : Block := [column_of_rows n v].

(** Scenario A: a queue pre-loaded with three batches whose producer has
    marked finished. *)
Definition preloaded (b1 b2 b3 : Block) (cap : nat) : BlockQueue.t Block :=
  BlockQueue.mark_producer_finished
    (BlockQueue.run (BlockQueue.create cap)
       [BlockQueue.PushReady b1; BlockQueue.PushReady b2; BlockQueue.PushReady b3]).

(** The environment a call leaves behind, whatever its outcome. *)
Definition env_after {Q N RS : Type}
  (o : StreamingAggSourceOperator.Outcome Q N RS)
  : StreamingAggSourceOperator.Env Q N RS :=
  match o with
  | StreamingAggSourceOperator.Returned _ e _ => e
  | StreamingAggSourceOperator.Crashed e _ => e
  end.

Definition events_of {Q N RS : Type}
  (o : StreamingAggSourceOperator.Outcome Q N RS)
  : list StreamingAggSourceOperator.Event :=
  match o with
  | StreamingAggSourceOperator.Returned _ _ tr => tr
  | StreamingAggSourceOperator.Crashed _ tr => tr
  end.

Definition status_of {Q N RS : Type}
  (o : StreamingAggSourceOperator.Outcome Q N RS) : option Status :=
  match o with
  | StreamingAggSourceOperator.Returned st _ _ => Some st
  | StreamingAggSourceOperator.Crashed _ _ => None
  end.

(** ** SchemaVariablesScanner::start *)

Module SchemaVariablesScannerStart.

Import SchemaVariablesScanner.

(** [TVarType::type], the two values the scanner uses. *)
Inductive TVarType : Type := GLOBAL | SESSION.

(** [TShowVariableRequest], as far as [start] sets it. *)
Record TShowVariableRequest : Type := mkRequest {
  varType : TVarType;
  threadId : Z
}.

(** The fields of [SchemaScannerParam] that [start] reads; a null [db] or
    [ip] pointer is [None]. *)
Record SchemaScannerParam : Type := mkParam {
  db : option string;
  thread_id : Z;
  ip : option string;
  port : Z
}.

(** The scanner with the fields [start] uses besides those of
    [get_next_block]: the pointer [_param], null ([None]) until the scanner
    is given its parameters, and the [_type] given to the constructor. *)
Record State : Type := mkState {
  scanner : Scanner;
  _param : option SchemaScannerParam;
  _type : TVarType
}.

(** [s.c_str()] as a C string: the characters before the first NUL. *)
Fixpoint c_str (s : string) : string :=
  match s with
  | EmptyString => EmptyString
  | String c rest =>
      if Ascii.eqb c Ascii.zero then EmptyString else String c (c_str rest)
  end.

(** [strcmp(a, b) == 0] on two C strings. *)
Definition strcmp_is_0 (a b : string) : bool := String.eqb (c_str a) (c_str b).

Section WithHelper.

(** [SchemaHelper::show_variables(ip, port, request, &result)] is a remote
    call made by code outside this file: it returns a status and leaves a
    variable list in [result]. *)
Variable show_variables :
  string -> Z -> TShowVariableRequest -> list (string * string)
  -> Status * list (string * string).

(** The request [start] builds from the object behind [_param]. *)
Definition var_params (type : TVarType) (param : SchemaScannerParam)
  : TShowVariableRequest :=
  (* Use db to save type *)
  let ty :=
    match db param with
    | Some d => if strcmp_is_0 d "GLOBAL" then GLOBAL else SESSION
    | None => type
    end in
  mkRequest ty (thread_id param).

(** What a [start] that returns leaves behind: its status, the scanner,
    and the remote calls it made, in order. *)
Record Started : Type := mkStarted {
  start_status : Status;
  start_state : State;
  start_calls : list (string * Z * TShowVariableRequest)
}.

(** [start] returns, or it dereferences a null [_param]. *)
Inductive StartOutcome : Type :=
| StartReturned (r : Started)
| StartNullDereference.

Definition start (s : State) : StartOutcome :=
  match _param s with
  | None => StartNullDereference   (* _param->db *)
  | Some param =>
      let request := var_params (_type s) param in
      match ip param with
      | Some addr =>
          if negb (Z.eqb (port param) 0) then
            let (st, result) :=
              show_variables addr (port param) request (variables (scanner s)) in
            StartReturned
              (mkStarted st
                 (mkState (mkScanner (_is_init (scanner s)) result)
                          (_param s) (_type s))
                 [(addr, port param, request)])
          else
            StartReturned
              (mkStarted (InternalError "IP or port doesn't exists") s [])
      | None =>
          StartReturned
            (mkStarted (InternalError "IP or port doesn't exists") s [])
      end
  end.

End WithHelper.

End SchemaVariablesScannerStart.

(** ** Java [int] *)

Module JavaInt.

Definition MIN_VALUE : Z := - 2 ^ 31.
Definition MAX_VALUE : Z := 2 ^ 31 - 1.

Definition in_range (z : Z) : Prop := (MIN_VALUE <= z <= MAX_VALUE)%Z.

(** The value an [int] operation keeps of a mathematical result. *)
Definition wrap (z : Z) : Z := ((z + 2 ^ 31) mod 2 ^ 32 - 2 ^ 31)%Z.

Definition sub (a b : Z) : Z := wrap (a - b).

End JavaInt.

(** ** DecimalV3Type (Nereids) *)

Module DecimalV3Type.

Local Open Scope Z_scope.

Definition MAX_DECIMAL32_PRECISION : Z := 9.
Definition MAX_DECIMAL64_PRECISION : Z := 18.
Definition MAX_DECIMAL128_PRECISION : Z := 38.

(** An object of the class: its two final [int] fields, read by
    [getPrecision] and [getScale]. *)
Record t : Type := mk {
  precision : Z;
  scale : Z
}.

Definition getPrecision (d : t) : Z := precision d.
Definition getScale (d : t) : Z := scale d.

(** A call returns normally or throws the [IllegalArgumentException] of
    [Preconditions.checkArgument]. *)
Inductive Thrown (A : Type) : Type :=
| Normal (a : A)
| IllegalArgumentException.

Arguments Normal {A} a.
Arguments IllegalArgumentException {A}.

Definition and_then {A C : Type} (m : Thrown A) (k : A -> Thrown C) : Thrown C :=
  match m with
  | Normal a => k a
  | IllegalArgumentException => IllegalArgumentException
  end.

Local Notation "m ;;; k" := (and_then m (fun _ => k))
  (at level 61, right associativity).

Definition checkArgument (expression : bool) : Thrown unit :=
  if expression then Normal tt else IllegalArgumentException.

(** The private constructor. *)
Definition new (precision scale : Z) : Thrown t :=
  checkArgument ((0 <? precision) && (precision <=? MAX_DECIMAL128_PRECISION)) ;;;
  Normal (mk precision scale).

(** The data types [forType] and [isWiderThan] tell apart: the eight keys
    of [FOR_TYPE_MAP], [DecimalV2Type] with its precision and scale,
    [DecimalV3Type], and every other type, by name. *)
Inductive DataType : Type :=
| BooleanType
| TinyIntType
| SmallIntType
| IntegerType
| BigIntType
| LargeIntType
| FloatType
| DoubleType
| DecimalV2Type (precision scale : Z)
| DecimalV3 (d : t)
| OtherType (name : string).

Section WithHierarchy.

(** [DEFAULT_SCALE] is inherited from a superclass, and which classes are
    an [IntegralType] is decided by the class hierarchy; both lie outside
    this file. *)
Variable DEFAULT_SCALE : Z.
Variable instanceof_IntegralType : DataType -> bool.

(** The static objects.  Their precisions pass the check of the
    constructor (lemma [statics_construct]). *)
Definition DEFAULT_DECIMAL32 : t := mk MAX_DECIMAL32_PRECISION DEFAULT_SCALE.
Definition DEFAULT_DECIMAL64 : t := mk MAX_DECIMAL64_PRECISION DEFAULT_SCALE.
Definition DEFAULT_DECIMAL128 : t := mk MAX_DECIMAL128_PRECISION DEFAULT_SCALE.
Definition SYSTEM_DEFAULT : t := DEFAULT_DECIMAL128.

Definition BOOLEAN_DECIMAL : t := mk 1 0.
Definition TINYINT_DECIMAL : t := mk 3 0.
Definition SMALLINT_DECIMAL : t := mk 5 0.
Definition INTEGER_DECIMAL : t := mk 10 0.
Definition BIGINT_DECIMAL : t := mk 20 0.
Definition LARGEINT_DECIMAL : t := mk 38 0.
Definition FLOAT_DECIMAL : t := mk 14 7.
Definition DOUBLE_DECIMAL : t := mk 30 15.

(** [FOR_TYPE_MAP.get(dataType)]; [None] when [containsKey] is false. *)
Definition FOR_TYPE_MAP (dataType : DataType) : option t :=
  match dataType with
  | BooleanType => Some BOOLEAN_DECIMAL
  | TinyIntType => Some TINYINT_DECIMAL
  | SmallIntType => Some SMALLINT_DECIMAL
  | IntegerType => Some INTEGER_DECIMAL
  | BigIntType => Some BIGINT_DECIMAL
  | LargeIntType => Some LARGEINT_DECIMAL
  | FloatType => Some FLOAT_DECIMAL
  | DoubleType => Some DOUBLE_DECIMAL
  | _ => None
  end.

(** [createDecimalV3Type(int precision, int scale)]. *)
Definition createDecimalV3Type (precision scale : Z) : Thrown t :=
  checkArgument ((0 <? precision) && (precision <=? MAX_DECIMAL128_PRECISION)) ;;;
  checkArgument (scale >=? 0) ;;;
  checkArgument (precision >=? scale) ;;;
  new precision scale.

(** [createDecimalV3Type(int precision)]. *)
Definition createDecimalV3Type_precision (precision : Z) : Thrown t :=
  createDecimalV3Type precision DEFAULT_SCALE.

Definition forType (dataType : DataType) : Thrown t :=
  match FOR_TYPE_MAP dataType with
  | Some d => Normal d
  | None =>
      match dataType with
      | DecimalV2Type p s => createDecimalV3Type p s
      | _ => Normal SYSTEM_DEFAULT
      end
  end.

(** [widerDecimalV3Type(int leftPrecision, int rightPrecision)] and
    [widerDecimalV3Type(DecimalV3Type left, DecimalV3Type right)]. *)
Definition widerDecimalV3Type_precisions (leftPrecision rightPrecision : Z)
  : Thrown t :=
  let maxPrecision := Z.max leftPrecision rightPrecision in
  createDecimalV3Type_precision maxPrecision.

Definition widerDecimalV3Type (left right : t) : Thrown t :=
  widerDecimalV3Type_precisions (getPrecision left) (getPrecision right).

(** [isWiderThanInternal]; the fuel bounds the depth of the recursion,
    [None] is out of fuel. *)
Fixpoint isWiderThanInternal (fuel : nat) (this : t) (other : DataType)
  : option (Thrown bool) :=
  match fuel with
  | O => None
  | S fuel' =>
      match other with
      | DecimalV3 dt =>
          Some (Normal
                  ((JavaInt.sub (precision this) (scale this)
                    >=? JavaInt.sub (precision dt) (scale dt))
                   && (scale this >=? scale dt)))
      | _ =>
          if instanceof_IntegralType other then
            match forType other with
            | Normal d => isWiderThanInternal fuel' this (DecimalV3 d)
            | IllegalArgumentException => Some IllegalArgumentException
            end
          else Some (Normal false)
      end
  end.

(** [isWiderThan]: the recursive call of [isWiderThanInternal] gets a
    [DecimalV3Type], so two levels are all there are (lemma
    [isWiderThanInternal_fuel]). *)
Definition isWiderThan (this : t) (other : DataType) : option (Thrown bool) :=
  isWiderThanInternal 2 this other.

Definition width (this : t) : Z :=
  if precision this <=? MAX_DECIMAL32_PRECISION then 4
  else if precision this <=? MAX_DECIMAL64_PRECISION then 8
  else 16.

End WithHierarchy.

(** [Integer.toString(i)], which is what [+] makes of an [int] next to a
    string: the decimal digits, after a minus sign for a negative number. *)
Definition Integer_toString (i : Z) : string :=
  DecimalString.NilZero.string_of_int (Z.to_int i).

Definition toSql (this : t) : string :=
  ("DECIMAL(" ++ Integer_toString (precision this) ++ ", "
   ++ Integer_toString (scale this) ++ ")")%string.

(** The decimal values of a type: [unscaled / 10 ^ scale] for the unscaled
    integers of at most [precision] digits. *)
Definition has_unscaled (d : t) (unscaled : Z) : Prop :=
  Z.abs unscaled < 10 ^ precision d.

(** What the factory methods guarantee of an object. *)
Definition well_formed (d : t) : Prop :=
  0 < precision d <= MAX_DECIMAL128_PRECISION /\ 0 <= scale d <= precision d.

End DecimalV3Type.

(** ** Concrete runs *)

Module Samples.

Import StreamingAggSourceOperator.

Definition b100 (v : Z) : Block := batch_of_rows 100 v.

(** Scenario A with three batches of 100 rows, a queue of capacity 8, a
    legacy node at end-of-stream and an output block of 5 stale rows. *)
Definition at_eos : ScriptedNode := mkScriptedNode [] 1.

Definition scenario_env : Env DataQueueState ScriptedNode unit :=
  mkEnv (mkDataQueue (preloaded (b100 1) (b100 2) (b100 3) 8) false) at_eos tt
        (batch_of_rows 5 9) RUNNING.

(** A queue exhausted at entry. *)
Definition exhausted_env : Env DataQueueState ScriptedNode unit :=
  mkEnv (mkDataQueue (BlockQueue.mark_producer_finished (BlockQueue.create 8))
                     true)
        at_eos tt (batch_of_rows 5 9) RUNNING.

(** A queue whose pop fails; a node whose pull fails behind an exhausted
    queue. *)
Definition failing_pop_env : Env FailingQueue ScriptedNode unit :=
  mkEnv (mkFailingQueue false 0) at_eos tt (batch_of_rows 5 9) RUNNING.

Definition failing_pull_env : Env DataQueueState FailingNode unit :=
  mkEnv (mkDataQueue (BlockQueue.mark_producer_finished (BlockQueue.create 8))
                     true)
        (mkFailingNode 0) tt (batch_of_rows 5 9) RUNNING.

(** A run of the two stages: three pushes into a queue of capacity two
    (the third is rejected at first), pops, a recycle and a reuse. *)
Definition stage_actions : list (Ownership.Action nat) :=
  [ Ownership.ProducerPush 1; Ownership.ProducerPush 2;
    Ownership.ProducerPush 3; Ownership.ConsumerPop;
    Ownership.ProducerPush 3; Ownership.ConsumerRecycle 1;
    Ownership.ConsumerPop; Ownership.ProducerReuse;
    Ownership.ProducerFinish ].

Definition stage_final : Ownership.System nat :=
  Ownership.mkSystem [1] (BlockQueue.mk [3] [] true false 2) [2]
                     [1; 2; 3] [1; 2].

End Samples.

(** * Properties *)

Lemma ok_true_iff (st : Status) : ok st = true <-> st = OK.
Proof. destruct st; simpl; split; congruence. Qed.

Lemma ok_false_iff (st : Status) : ok st = false <-> st <> OK.
Proof. destruct st; simpl; split; congruence. Qed.

(** ** SchemaVariablesScanner::get_next_block *)

Module ScannerSpec.

Import SchemaVariablesScanner.

Section WithBlock.

Variable Block : Type.
Variable sizeof_StringRef : Z.
Variable fill_dest_column : Block -> StringRef -> ColumnDesc -> Status * Block.

Let get := get_next_block sizeof_StringRef fill_dest_column.
Let fill := _fill_block_impl sizeof_StringRef fill_dest_column.

Lemma fill_block_impl_ok (s : Scanner) (b : Block) : fst (fill s b) = OK.
Proof. reflexivity. Qed.

Lemma get_next_block_uninit (s : Scanner) block eos :
  _is_init s = false ->
  get s block eos = mkResult (InternalError "call this before initial.") block eos.
Proof. intros Hi. unfold get, get_next_block. now rewrite Hi. Qed.

Lemma get_next_block_null (s : Scanner) block eos :
  _is_init s = true ->
  block = None \/ eos = None ->
  get s block eos = mkResult (InternalError "invalid parameter.") block eos.
Proof.
  intros Hi Hnull. unfold get, get_next_block. rewrite Hi. simpl.
  destruct block as [b|], eos as [e|]; try reflexivity.
  destruct Hnull; discriminate.
Qed.

Lemma get_next_block_run (s : Scanner) (b : Block) (e : bool) :
  _is_init s = true ->
  get s (Some b) (Some e) = mkResult OK (Some (snd (fill s b))) (Some true).
Proof.
  intros Hi. unfold get, fill, get_next_block, _fill_block_impl.
  rewrite Hi. simpl.
  destruct (variables s) as [|v vs]; reflexivity.
Qed.

(** The status is OK exactly when the scanner is initialised and both
    pointers are non-null. *)
Lemma get_next_block_ok_inv (s : Scanner) block eos :
  status (get s block eos) = OK ->
  _is_init s = true /\ exists b e, block = Some b /\ eos = Some e.
Proof.
  intros Hok. destruct (_is_init s) eqn:Hi.
  - split; [reflexivity|].
    destruct block as [b|], eos as [e|];
      try (rewrite get_next_block_null in Hok by (auto; fail); discriminate);
      try (rewrite get_next_block_null in Hok by auto; discriminate).
    now exists b, e.
  - rewrite get_next_block_uninit in Hok by assumption. discriminate.
Qed.

(** C9, as the code has it: a call before initialisation fails with the
    internal error "call this before initial.", whatever the pointers are;
    a call on an initialised scanner with a null [block] or a null [eos]
    fails with the internal error "invalid parameter.".  Neither failure
    touches what the pointers refer to. *)
Theorem get_next_block_failures (s : Scanner) (block : option Block)
        (eos : option bool) :
  (_is_init s = false ->
   get_next_block sizeof_StringRef fill_dest_column s block eos
   = mkResult (InternalError "call this before initial.") block eos)
  /\
  (_is_init s = true -> block = None \/ eos = None ->
   get_next_block sizeof_StringRef fill_dest_column s block eos
   = mkResult (InternalError "invalid parameter.") block eos)
  /\
  (block = None \/ eos = None ->
   error_kind (status (get_next_block sizeof_StringRef fill_dest_column s block eos))
   = Some INTERNAL_ERROR).
Proof.
  split; [|split].
  - apply get_next_block_uninit.
  - apply get_next_block_null.
  - intros Hnull. destruct (_is_init s) eqn:Hi.
    + fold get. now rewrite get_next_block_null.
    + fold get. now rewrite get_next_block_uninit.
Qed.

Lemma fill_loop_calls (proj : string * string -> string) (col : ColumnDesc)
      (vars : list (string * string)) : forall b : Block,
  fill_loop fill_dest_column proj col vars b
  = fold_left (fun blk call => snd (fill_dest_column blk (fst call) (snd call)))
              (map (fun it => (proj it, col)) vars) b.
Proof.
  induction vars as [|it vars IH]; intros b; simpl; [reflexivity|].
  apply IH.
Qed.

(** C10: whenever [get_next_block] returns OK it has set [*eos] to true,
    and the block is the block it was given after one [fill_dest_column]
    call per variable for the column VARIABLE_NAME with that variable's
    name, followed by one call per variable for the column VARIABLE_VALUE
    with its value, in the order of the variable map: every variable is
    delivered in this one block.  With an empty variable list it returns
    OK with [*eos] true and the block as it was. *)
Theorem get_next_block_ok_sets_eos (s : Scanner) (block : option Block)
        (eos : option bool) :
  (status (get_next_block sizeof_StringRef fill_dest_column s block eos) = OK ->
   eos_after (get_next_block sizeof_StringRef fill_dest_column s block eos)
   = Some true
   /\ exists b,
       block = Some b /\
       block_after (get_next_block sizeof_StringRef fill_dest_column s block eos)
       = Some
           (fold_left
              (fun blk call => snd (fill_dest_column blk (fst call) (snd call)))
              (map (fun it =>
                      (fst it,
                       mkColumnDesc "VARIABLE_NAME" TYPE_VARCHAR
                                    sizeof_StringRef false))
                   (variables s)
               ++ map (fun it =>
                         (snd it,
                          mkColumnDesc "VARIABLE_VALUE" TYPE_VARCHAR
                                       sizeof_StringRef false))
                      (variables s))
              b))
  /\
  (variables s = [] -> _is_init s = true ->
   forall b e, block = Some b -> eos = Some e ->
   get_next_block sizeof_StringRef fill_dest_column s block eos
   = mkResult OK (Some b) (Some true)).
Proof.
  split.
  - intros Hok. fold get in Hok |- *.
    destruct (get_next_block_ok_inv _ _ _ Hok) as [Hi [b [e [-> ->]]]].
    rewrite get_next_block_run by assumption. simpl.
    split; [reflexivity|]. exists b. split; [reflexivity|].
    rewrite fold_left_app, <- !fill_loop_calls. reflexivity.
  - intros Hv Hi b e -> ->. fold get.
    rewrite get_next_block_run by assumption.
    unfold fill, _fill_block_impl. rewrite Hv. reflexivity.
Qed.

End WithBlock.

(** The C9 claim as worded fails: on an initialised scanner a null [block]
    yields an internal error, not an invalid-argument error. *)
Lemma null_block_is_internal_error :
  status (Sample.run (mkScanner true [("version", "5.1.0")]) None (Some false))
  = InternalError "invalid parameter."
  /\ error_kind
       (status (Sample.run (mkScanner true [("version", "5.1.0")]) None (Some false)))
     <> Some INVALID_ARGUMENT.
Proof. split; [reflexivity | discriminate]. Qed.

Lemma get_next_block_failures_witness :
  Sample.run (mkScanner false []) None None
  = mkResult (InternalError "call this before initial.") None None
  /\ Sample.run (mkScanner true []) (Some ([], [])) None
     = mkResult (InternalError "invalid parameter.") (Some ([], [])) None.
Proof.
  split.
  - apply (proj1 (get_next_block_failures 16 Sample.fill_dest_column
                    (mkScanner false []) None None)).
    reflexivity.
  - apply (proj1 (proj2 (get_next_block_failures 16 Sample.fill_dest_column
                    (mkScanner true []) (Some ([], [])) None))).
    + reflexivity.
    + right. reflexivity.
Defined.

Lemma get_next_block_ok_sets_eos_witness :
  eos_after (Sample.run (mkScanner true [("autocommit", "true"); ("wait_timeout", "28800")])
               (Some ([], [])) (Some false))
  = Some true
  /\ block_after (Sample.run
                    (mkScanner true [("autocommit", "true"); ("wait_timeout", "28800")])
                    (Some ([], [])) (Some false))
     = Some (["autocommit"; "wait_timeout"], ["true"; "28800"])
  /\ Sample.run (mkScanner true []) (Some (["x"], ["y"])) (Some false)
     = mkResult OK (Some (["x"], ["y"])) (Some true).
Proof.
  destruct (proj1 (get_next_block_ok_sets_eos 16 Sample.fill_dest_column
             (mkScanner true [("autocommit", "true"); ("wait_timeout", "28800")])
             (Some ([], [])) (Some false)) eq_refl)
    as [Heos [b [Hb Hblock]]].
  injection Hb as <-.
  split; [exact Heos|]. split; [exact Hblock|].
  exact (proj2 (get_next_block_ok_sets_eos 16 Sample.fill_dest_column
           (mkScanner true []) (Some (["x"], ["y"])) (Some false))
           eq_refl eq_refl (["x"], ["y"]) false eq_refl eq_refl).
Defined.

End ScannerSpec.

(** ** BlockQueue: exhaustion *)

Module QueueSpec.

Import BlockQueue.

Section Queue.

Variable B : Type.

Implicit Types (q : t B) (ops : list (Op B)).


Lemma run_app q ops1 ops2 : run (run q ops1) ops2 = run q (ops1 ++ ops2).
Proof. unfold run. now rewrite fold_left_app. Qed.







(** Pops come in push order, from any queue. *)
Lemma fifo_observed ops : forall q : t B,
  snd (observed q ops) ++ ready (run q ops) = ready q ++ fst (observed q ops).
Proof.
  induction ops as [|op ops IH]; intros q; simpl.
  - now rewrite app_nil_r.
  - specialize (IH (apply q op)). unfold run in *. simpl.
    destruct (observed (apply q op) ops) as [taken handed]. simpl in IH.
    destruct op as [b| |b| |]; simpl in *;
      unfold push_ready, try_pop_ready, try_pop_free in *.
    + destruct (negb _ && Nat.ltb _ _); simpl in *.
      * rewrite IH, <- app_assoc. reflexivity.
      * exact IH.
    + destruct (ready q) as [|b r] eqn:Hr; simpl in *.
      * rewrite Hr in IH. exact IH.
      * now rewrite IH.
    + exact IH.
    + destruct (free_list q); simpl in *; exact IH.
    + exact IH.
Qed.


End Queue.


End QueueSpec.

(** ** BlockQueue: FIFO order and exclusive ownership *)

Module OwnershipSpec.

Import BlockQueue Ownership.

Section Stages.

Variable B : Type.
Variable B_eq_dec : forall x y : B, {x = y} + {x <> y}.

Local Abbreviation count := (count_occ B_eq_dec).
Local Abbreviation total := (Ownership.total B_eq_dec).

Lemma count_remove_same (b : B) (l : list B) : count (remove B_eq_dec b l) b = 0.
Proof.
  induction l as [|x l IH]; simpl; [reflexivity|].
  destruct (B_eq_dec b x) as [->|Hne]; [exact IH|].
  simpl. destruct (B_eq_dec x b) as [Heq|_]; [congruence | exact IH].
Qed.

Lemma count_remove_other (b x : B) (l : list B) :
  x <> b -> count (remove B_eq_dec b l) x = count l x.
Proof.
  intros Hne. induction l as [|y l IH]; simpl; [reflexivity|].
  destruct (B_eq_dec b y) as [->|Hby].
  - destruct (B_eq_dec y x) as [Heq|_]; [congruence | exact IH].
  - simpl. destruct (B_eq_dec y x); now rewrite IH.
Qed.

Lemma holds_count (l : list B) (b : B) : holds B_eq_dec l b = true -> 1 <= count l b.
Proof.
  unfold holds. destruct (in_dec B_eq_dec b l) as [Hin|]; [|discriminate].
  intros _. now apply count_occ_In.
Qed.

Variable batches : list B.
Hypothesis batches_distinct : NoDup batches.

Local Abbreviation invariant := (Ownership.invariant B_eq_dec batches).

Lemma count_batches_le_1 (x : B) : count batches x <= 1.
Proof. now apply NoDup_count_occ. Qed.

Lemma invariant_init (cap : nat) : invariant (init batches cap).
Proof.
  split; [|reflexivity].
  intros x. unfold Ownership.total, init. simpl. lia.
Qed.

Lemma invariant_act (s s' : System B) (a : Action B) :
  act B_eq_dec s a = Some s' -> invariant s -> invariant s'.
Proof.
  intros Hact [Hcnt Hfifo]. destruct a as [b| |b| |]; simpl in Hact.
  - (* ProducerPush *)
    destruct (holds B_eq_dec (producer s) b) eqn:Hh; [|discriminate].
    apply holds_count in Hh. unfold push_ready in Hact.
    destruct (negb _ && Nat.ltb _ _); inversion Hact; subst; clear Hact.
    + split; simpl.
      * intros x. specialize (Hcnt x). pose proof (count_batches_le_1 x) as Hle.
        unfold Ownership.total in *. simpl. rewrite count_occ_app. simpl.
        destruct (B_eq_dec b x) as [->|Hne].
        -- rewrite count_remove_same. lia.
        -- rewrite count_remove_other by congruence. lia.
      * now rewrite app_assoc, Hfifo.
    + now split.
  - (* ConsumerPop *)
    unfold try_pop_ready in Hact.
    destruct (ready (queue s)) as [|b rest] eqn:Hr;
      inversion Hact; subst; clear Hact.
    + split; [|simpl; now rewrite Hr].
      intros x. specialize (Hcnt x). unfold Ownership.total in *. simpl. exact Hcnt.
    + split; simpl.
      * intros x. specialize (Hcnt x). unfold Ownership.total in *. simpl.
        rewrite Hr in Hcnt. simpl in Hcnt.
        destruct (B_eq_dec b x); lia.
      * now rewrite <- app_assoc.
  - (* ConsumerRecycle *)
    destruct (holds B_eq_dec (consumer s) b) eqn:Hh; [|discriminate].
    apply holds_count in Hh. inversion Hact; subst; clear Hact.
    split; simpl; [|exact Hfifo].
    intros x. specialize (Hcnt x). pose proof (count_batches_le_1 x) as Hle.
    unfold Ownership.total in *. simpl.
    destruct (B_eq_dec b x) as [->|Hne].
    + rewrite count_remove_same. lia.
    + rewrite count_remove_other by congruence. lia.
  - (* ProducerReuse *)
    unfold try_pop_free in Hact.
    destruct (free_list (queue s)) as [|b rest] eqn:Hf;
      inversion Hact; subst; clear Hact.
    + split; [|exact Hfifo].
      intros x. specialize (Hcnt x). unfold Ownership.total in *. simpl. exact Hcnt.
    + split; simpl; [|exact Hfifo].
      intros x. specialize (Hcnt x). unfold Ownership.total in *. simpl.
      rewrite Hf in Hcnt. simpl in Hcnt.
      destruct (B_eq_dec b x); lia.
  - (* ProducerFinish *)
    inversion Hact; subst; clear Hact. now split.
Qed.

Lemma invariant_exec (acts : list (Action B)) : forall s s',
  exec B_eq_dec s acts = Some s' -> invariant s -> invariant s'.
Proof.
  induction acts as [|a acts IH]; intros s s' Hexec Hinv; simpl in Hexec.
  - now inversion Hexec; subst.
  - destruct (act B_eq_dec s a) as [s1|] eqn:Hact; [|discriminate].
    eapply IH; [exact Hexec|]. eapply invariant_act; eassumption.
Qed.

(** A batch held once in total is found in exactly one place. *)
Lemma one_holder (s : System B) (b : B) :
  total s b = 1 -> exists h, holders B_eq_dec s b = [h].
Proof.
  unfold Ownership.total, holders. intros Ht.
  destruct (count (producer s) b) as [|[|p]],
           (count (ready (queue s)) b) as [|[|r]],
           (count (consumer s) b) as [|[|c]],
           (count (free_list (queue s)) b) as [|[|f]];
    simpl in *; try lia; eexists; reflexivity.
Qed.

End Stages.

(** C5: for every sequence of operations on a fresh queue, the batches
    handed out by [try_pop_ready], followed by the batches still ready, are
    the batches taken by [push_ready], in push order: pops come in push
    order.  And for every sequence of actions of the two stages around a
    queue, started with the producer holding distinct batches, the same
    holds of the recorded pushes and pops, every batch is found in exactly
    one of producer, ready sequence, consumer and free-list, and anything
    else is found nowhere. *)
Theorem fifo_and_exclusive_ownership (B : Type)
        (B_eq_dec : forall x y : B, {x = y} + {x <> y}) :
  (forall (cap : nat) (ops : list (Op B)),
     snd (observed (create cap) ops) ++ ready (run (create cap) ops)
     = fst (observed (create cap) ops))
  /\
  (forall (batches : list B) (cap : nat) (acts : list (Action B)) (s : System B),
     NoDup batches ->
     exec B_eq_dec (init batches cap) acts = Some s ->
     popped s ++ ready (queue s) = pushed s
     /\ (forall b, In b batches -> exists h, holders B_eq_dec s b = [h])
     /\ (forall b, ~ In b batches -> holders B_eq_dec s b = [])
     /\ NoDup (held s)).
Proof.
  split.
  - intros cap ops. now rewrite QueueSpec.fifo_observed.
  - intros batches cap acts s Hnd Hexec.
    assert (Hinv : Ownership.invariant B_eq_dec batches s).
    { eapply invariant_exec; [exact Hnd | exact Hexec | apply invariant_init]. }
    destruct Hinv as [Hcnt Hfifo].
    split; [exact Hfifo|]. split; [|split].
    + intros b Hb. apply one_holder. rewrite Hcnt.
      now apply (proj1 (NoDup_count_occ' B_eq_dec batches) Hnd).
    + intros b Hb. specialize (Hcnt b).
      rewrite (proj1 (count_occ_not_In B_eq_dec batches b) Hb) in Hcnt.
      unfold Ownership.total in Hcnt. unfold holders.
      destruct (count_occ B_eq_dec (producer s) b),
               (count_occ B_eq_dec (ready (queue s)) b),
               (count_occ B_eq_dec (consumer s) b),
               (count_occ B_eq_dec (free_list (queue s)) b);
        simpl in *; try lia; reflexivity.
    + apply (NoDup_count_occ B_eq_dec). intros x. unfold held.
      rewrite !count_occ_app. specialize (Hcnt x). unfold Ownership.total in Hcnt.
      pose proof (count_batches_le_1 B_eq_dec Hnd x). lia.
Qed.

Lemma fifo_and_exclusive_ownership_witness :
  exec Nat.eq_dec (init [1; 2; 3] 2) Samples.stage_actions = Some Samples.stage_final
  /\ popped Samples.stage_final ++ ready (queue Samples.stage_final)
     = pushed Samples.stage_final
  /\ NoDup (held Samples.stage_final).
Proof.
  assert (Hnd : NoDup [1; 2; 3]).
  { repeat constructor; simpl; intuition discriminate. }
  assert (Hexec : exec Nat.eq_dec (init [1; 2; 3] 2) Samples.stage_actions
                  = Some Samples.stage_final)
    by reflexivity.
  destruct (proj2 (fifo_and_exclusive_ownership Nat.eq_dec)
              [1; 2; 3] 2 Samples.stage_actions Samples.stage_final Hnd Hexec)
    as [Hfifo [_ [_ Hheld]]].
  split; [exact Hexec|]. split; assumption.
Defined.

End OwnershipSpec.

(** ** StreamingAggSourceOperator::get_block, one call *)

Module OperatorSpec.

Import StreamingAggSourceOperator.

Ltac run_body :=
  unfold get_block, get_block_body, bind, ret, return_, RETURN_IF_ERROR,
    queue_data_exhausted, queue_get_block_from_queue, node_pull, block_swap,
    node_num_materialized_slots, block_clear_column_data,
    queue_push_free_block, set_source_state; simpl.

Section Operator.

Context {Q N RS : Type} `{DataQueue Q} `{ExecNode N RS}.

Implicit Types (e : Env Q N RS) (q : Q).

(** Queue exhausted at entry, pull succeeds. *)
Lemma get_block_exhausted_ok e :
  data_exhausted (_data_queue e) = true ->
  pull_status (pull (_node e) (state e) (block e)) = OK ->
  get_block e
  = Returned OK
      (after_pull e (_data_queue e)
         (state_of_eos (pull_eos (pull (_node e) (state e) (block e)))))
      [pull_event e].
Proof.
  intros Hex Hst. run_body. rewrite Hex. simpl. rewrite Hst. simpl.
  unfold after_pull, pull_event, state_of_eos. rewrite Hst.
  now destruct (pull_eos _).
Qed.

(** Queue exhausted at entry, pull fails. *)
Lemma get_block_exhausted_failed e :
  data_exhausted (_data_queue e) = true ->
  ok (pull_status (pull (_node e) (state e) (block e))) = false ->
  get_block e
  = Returned (pull_status (pull (_node e) (state e) (block e)))
      (after_pull e (_data_queue e) (source_state e))
      [pull_event e].
Proof.
  intros Hex Hst. run_body. rewrite Hex. simpl. now rewrite Hst.
Qed.

(** The pop fails. *)
Lemma get_block_pop_failed e st agg_block q' :
  data_exhausted (_data_queue e) = false ->
  get_block_from_queue (_data_queue e) = (st, agg_block, q') ->
  ok st = false ->
  get_block e
  = Returned st (mkEnv q' (_node e) (state e) (block e) (source_state e))
      [Call_get_block_from_queue st agg_block].
Proof.
  intros Hex Hpop Hst. run_body. rewrite Hex. simpl. rewrite Hpop. simpl.
  now rewrite Hst.
Qed.

(** The pop leaves the queue exhausted, the pull succeeds. *)
Lemma get_block_drained_ok e agg_block q' :
  data_exhausted (_data_queue e) = false ->
  get_block_from_queue (_data_queue e) = (OK, agg_block, q') ->
  data_exhausted q' = true ->
  pull_status (pull (_node e) (state e) (block e)) = OK ->
  get_block e
  = Returned OK
      (after_pull e q'
         (state_of_eos (pull_eos (pull (_node e) (state e) (block e)))))
      [Call_get_block_from_queue OK agg_block; pull_event e].
Proof.
  intros Hex Hpop Hex' Hst. run_body. rewrite Hex. simpl. rewrite Hpop. simpl.
  rewrite Hex'. simpl. rewrite Hst. simpl.
  unfold after_pull, pull_event, state_of_eos. rewrite Hst.
  now destruct (pull_eos _).
Qed.

(** The pop leaves the queue exhausted, the pull fails. *)
Lemma get_block_drained_failed e agg_block q' :
  data_exhausted (_data_queue e) = false ->
  get_block_from_queue (_data_queue e) = (OK, agg_block, q') ->
  data_exhausted q' = true ->
  ok (pull_status (pull (_node e) (state e) (block e))) = false ->
  get_block e
  = Returned (pull_status (pull (_node e) (state e) (block e)))
      (after_pull e q' (source_state e))
      [Call_get_block_from_queue OK agg_block; pull_event e].
Proof.
  intros Hex Hpop Hex' Hst. run_body. rewrite Hex. simpl. rewrite Hpop. simpl.
  rewrite Hex'. simpl. now rewrite Hst.
Qed.

(** The pop hands over a batch and the queue is not exhausted. *)
Lemma get_block_swapped e b q' :
  data_exhausted (_data_queue e) = false ->
  get_block_from_queue (_data_queue e) = (OK, Some b, q') ->
  data_exhausted q' = false ->
  get_block e
  = Returned OK
      (mkEnv
         (push_free_block q'
            (Batch.clear_column_data (num_materialized_slots (_node e)) (block e)))
         (_node e) (state e) b DEPEND_ON_SOURCE)
      [Call_get_block_from_queue OK (Some b);
       Call_swap b;
       Call_clear_column_data (num_materialized_slots (_node e));
       Call_push_free_block
         (Batch.clear_column_data (num_materialized_slots (_node e)) (block e))].
Proof.
  intros Hex Hpop Hex'. run_body. rewrite Hex. simpl. rewrite Hpop. simpl.
  now rewrite Hex'.
Qed.

(** The pop hands over nothing although the queue is not exhausted:
    [*agg_block] dereferences a null holder. *)
Lemma get_block_null_holder e q' :
  data_exhausted (_data_queue e) = false ->
  get_block_from_queue (_data_queue e) = (OK, None, q') ->
  data_exhausted q' = false ->
  get_block e
  = Crashed (mkEnv q' (_node e) (state e) (block e) (source_state e))
      [Call_get_block_from_queue OK None].
Proof.
  intros Hex Hpop Hex'. run_body. rewrite Hex. simpl. rewrite Hpop. simpl.
  now rewrite Hex'.
Qed.

Lemma path_of e : Path e.
Proof.
  destruct (data_exhausted (_data_queue e)) eqn:Hex.
  - destruct (pull_status (pull (_node e) (state e) (block e))) eqn:Hst.
    + now apply PathExhaustedOk.
    + apply PathExhaustedFailed; [assumption|]. now rewrite Hst.
  - destruct (get_block_from_queue (_data_queue e)) as [[st agg_block] q'] eqn:Hpop.
    destruct st as [|k m].
    + destruct (data_exhausted q') eqn:Hex'.
      * destruct (pull_status (pull (_node e) (state e) (block e))) eqn:Hst.
        -- now apply PathDrainedOk with agg_block q'.
        -- apply PathDrainedFailed with agg_block q'; try assumption.
           now rewrite Hst.
      * destruct agg_block as [b|].
        -- now apply PathSwapped with b q'.
        -- now apply PathNullHolder with q'.
    + now apply PathPopFailed with (Failed k m) agg_block q'.
Qed.

(** C1: one call of [get_block].  If the queue is exhausted at entry the
    call pulls from the legacy node and touches the queue no further.  If
    it is not, the call first pops from the queue; when the queue is
    exhausted after a successful pop, the call pulls from the legacy node
    in this same call and hands out what the pull produced; when it is not,
    the popped batch is swapped into the output block, and the holder, now
    with the former output block, is cleared for the node's materialized
    slots and pushed onto the free-list. *)
Theorem get_block_steps e :
  (data_exhausted (_data_queue e) = true ->
   events_of (get_block e) = [pull_event e]
   /\ _data_queue (env_after (get_block e)) = _data_queue e
   /\ block (env_after (get_block e))
      = pull_block (pull (_node e) (state e) (block e)))
  /\
  (data_exhausted (_data_queue e) = false ->
   forall st agg_block q',
     get_block_from_queue (_data_queue e) = (st, agg_block, q') ->
     hd_error (events_of (get_block e))
     = Some (Call_get_block_from_queue st agg_block)
     /\
     (st = OK -> data_exhausted q' = true ->
      events_of (get_block e)
      = [Call_get_block_from_queue OK agg_block; pull_event e]
      /\ _data_queue (env_after (get_block e)) = q'
      /\ block (env_after (get_block e))
         = pull_block (pull (_node e) (state e) (block e)))
     /\
     (st = OK -> data_exhausted q' = false ->
      forall b, agg_block = Some b ->
        get_block e
        = Returned OK
            (mkEnv
               (push_free_block q'
                  (Batch.clear_column_data (num_materialized_slots (_node e))
                     (block e)))
               (_node e) (state e) b DEPEND_ON_SOURCE)
            [Call_get_block_from_queue OK (Some b);
             Call_swap b;
             Call_clear_column_data (num_materialized_slots (_node e));
             Call_push_free_block
               (Batch.clear_column_data (num_materialized_slots (_node e))
                  (block e))])).
Proof.
  split.
  - intros Hex.
    destruct (ok (pull_status (pull (_node e) (state e) (block e)))) eqn:Hst.
    + apply ok_true_iff in Hst.
      rewrite (get_block_exhausted_ok e Hex Hst). now repeat split.
    + rewrite (get_block_exhausted_failed e Hex Hst). now repeat split.
  - intros Hex st agg_block q' Hpop. split; [|split].
    + destruct (path_of e) as [Hx _|Hx _|st1 a1 q1 _ Hp Hst|a1 q1 _ Hp Hx' Hst
                              |a1 q1 _ Hp Hx' Hst|b1 q1 _ Hp Hx'|q1 _ Hp Hx'];
        try congruence; rewrite Hpop in Hp; inversion Hp; subst.
      * now rewrite (get_block_pop_failed e Hex Hpop Hst).
      * now rewrite (get_block_drained_ok e Hex Hpop Hx' Hst).
      * now rewrite (get_block_drained_failed e Hex Hpop Hx' Hst).
      * now rewrite (get_block_swapped e Hex Hpop Hx').
      * now rewrite (get_block_null_holder e Hex Hpop Hx').
    + intros -> Hex'.
      destruct (ok (pull_status (pull (_node e) (state e) (block e)))) eqn:Hst.
      * apply ok_true_iff in Hst.
        rewrite (get_block_drained_ok e Hex Hpop Hex' Hst). now repeat split.
      * rewrite (get_block_drained_failed e Hex Hpop Hex' Hst). now repeat split.
    + intros -> Hex' b ->. exact (get_block_swapped e Hex Hpop Hex').
Qed.

(** C2: a call that returns OK leaves [source_state] at FINISHED exactly
    when it pulled from the legacy node and that pull reported
    end-of-stream, and at DEPEND_ON_SOURCE otherwise; so a call in which
    the legacy node reports end-of-stream never ends in RUNNING or
    DEPEND_ON_SOURCE, with an empty output block or not. *)
Theorem get_block_source_state e e' tr :
  get_block e = Returned OK e' tr ->
  (source_state e' = FINISHED <-> exists st, In (Call_pull st true) tr)
  /\ (~ (exists st, In (Call_pull st true) tr) ->
      source_state e' = DEPEND_ON_SOURCE)
  /\ ((exists st, In (Call_pull st true) tr) ->
      ~ ((source_state e' = RUNNING \/ source_state e' = DEPEND_ON_SOURCE)
         /\ Batch.rows (block e') = 0)).
Proof.
  intros Hcall.
  assert (Hmain : (exists st, In (Call_pull st true) tr)
                  /\ source_state e' = FINISHED
                  \/ ~ (exists st, In (Call_pull st true) tr)
                     /\ source_state e' = DEPEND_ON_SOURCE).
  { destruct (path_of e) as [Hx Hst|Hx Hst|st1 a1 q1 Hx Hp Hst|a1 q1 Hx Hp Hx' Hst
                            |a1 q1 Hx Hp Hx' Hst|b1 q1 Hx Hp Hx'|q1 Hx Hp Hx'].
    - rewrite (get_block_exhausted_ok e Hx Hst) in Hcall.
      inversion Hcall; subst; clear Hcall. unfold pull_event, after_pull. simpl.
      destruct (pull_eos _); simpl.
      + left. split; [|reflexivity]. eexists. left. reflexivity.
      + right. split; [|reflexivity].
        intros [st [Hin|[]]]. discriminate.
    - rewrite (get_block_exhausted_failed e Hx Hst) in Hcall.
      inversion Hcall as [[Hs He Ht]]. rewrite Hs in Hst. discriminate.
    - rewrite (get_block_pop_failed e Hx Hp Hst) in Hcall.
      inversion Hcall as [[Hs He Ht]]. rewrite Hs in Hst. discriminate.
    - rewrite (get_block_drained_ok e Hx Hp Hx' Hst) in Hcall.
      inversion Hcall; subst; clear Hcall. unfold pull_event, after_pull. simpl.
      destruct (pull_eos _); simpl.
      + left. split; [|reflexivity]. eexists. right. left. reflexivity.
      + right. split; [|reflexivity].
        intros [st [Hin|[Hin|[]]]]; discriminate.
    - rewrite (get_block_drained_failed e Hx Hp Hx' Hst) in Hcall.
      inversion Hcall as [[Hs He Ht]]. rewrite Hs in Hst. discriminate.
    - rewrite (get_block_swapped e Hx Hp Hx') in Hcall.
      inversion Hcall; subst; clear Hcall. simpl.
      right. split; [|reflexivity].
      intros [st [Hin|[Hin|[Hin|[Hin|[]]]]]]; discriminate.
    - rewrite (get_block_null_holder e Hx Hp Hx') in Hcall. discriminate. }
  destruct Hmain as [[Hpull Hss]|[Hno Hss]].
  - split; [|split].
    + split; auto.
    + intros Hn. contradiction.
    + intros _ [[Hr|Hd] _]; congruence.
  - split; [|split].
    + split; [congruence | intros Hp; contradiction].
    + auto.
    + intros Hp. contradiction.
Qed.

(** C7: a failing pop, or a failing pull, ends the call at once.  The call
    returns the failed status; the failing call is the last call made, it
    was made once, [source_state] is not written, and nothing is pushed
    onto the free-list. *)
Theorem get_block_failure_aborts e :
  (forall st agg_block q',
     data_exhausted (_data_queue e) = false ->
     get_block_from_queue (_data_queue e) = (st, agg_block, q') ->
     st <> OK ->
     get_block e
     = Returned st (mkEnv q' (_node e) (state e) (block e) (source_state e))
         [Call_get_block_from_queue st agg_block])
  /\
  (pull_status (pull (_node e) (state e) (block e)) <> OK ->
   (data_exhausted (_data_queue e) = true ->
    get_block e
    = Returned (pull_status (pull (_node e) (state e) (block e)))
        (after_pull e (_data_queue e) (source_state e))
        [pull_event e])
   /\
   (forall agg_block q',
      data_exhausted (_data_queue e) = false ->
      get_block_from_queue (_data_queue e) = (OK, agg_block, q') ->
      data_exhausted q' = true ->
      get_block e
      = Returned (pull_status (pull (_node e) (state e) (block e)))
          (after_pull e q' (source_state e))
          [Call_get_block_from_queue OK agg_block; pull_event e]))
  /\
  (forall st e' tr,
     get_block e = Returned st e' tr ->
     st <> OK ->
     (exists before ev, tr = before ++ [ev] /\ reported ev st)
     /\ pops tr <= 1 /\ pulls tr <= 1
     /\ source_state e' = source_state e).
Proof.
  split; [|split].
  - intros st agg_block q' Hex Hpop Hst. apply ok_false_iff in Hst.
    exact (get_block_pop_failed e Hex Hpop Hst).
  - intros Hst. apply ok_false_iff in Hst. split.
    + intros Hex. exact (get_block_exhausted_failed e Hex Hst).
    + intros agg_block q' Hex Hpop Hex'.
      exact (get_block_drained_failed e Hex Hpop Hex' Hst).
  - intros st e' tr Hcall Hne.
    destruct (path_of e) as [Hx Hst|Hx Hst|st1 a1 q1 Hx Hp Hst|a1 q1 Hx Hp Hx' Hst
                            |a1 q1 Hx Hp Hx' Hst|b1 q1 Hx Hp Hx'|q1 Hx Hp Hx'].
    + rewrite (get_block_exhausted_ok e Hx Hst) in Hcall.
      inversion Hcall; subst. congruence.
    + rewrite (get_block_exhausted_failed e Hx Hst) in Hcall.
      inversion Hcall; subst; clear Hcall. unfold pull_event. repeat split.
      * exists [], (pull_event e). now split.
      * unfold pops. simpl. lia.
      * unfold pulls. simpl. lia.
    + rewrite (get_block_pop_failed e Hx Hp Hst) in Hcall.
      inversion Hcall; subst; clear Hcall. repeat split.
      * exists [], (Call_get_block_from_queue st a1). now split.
      * unfold pops. simpl. lia.
      * unfold pulls. simpl. lia.
    + rewrite (get_block_drained_ok e Hx Hp Hx' Hst) in Hcall.
      inversion Hcall; subst. congruence.
    + rewrite (get_block_drained_failed e Hx Hp Hx' Hst) in Hcall.
      inversion Hcall; subst; clear Hcall. repeat split.
      * exists [Call_get_block_from_queue OK a1], (pull_event e). now split.
      * unfold pops, pull_event. simpl. lia.
      * unfold pulls, pull_event. simpl. lia.
    + rewrite (get_block_swapped e Hx Hp Hx') in Hcall.
      inversion Hcall; subst. congruence.
    + rewrite (get_block_null_holder e Hx Hp Hx') in Hcall. discriminate.
Qed.

End Operator.

End OperatorSpec.

(** ** Clearing a batch *)

Module BatchSpec.

Import Batch.






End BatchSpec.

(** ** The operator over the queue of the spec *)

Module BoundOperatorSpec.

Import StreamingAggSourceOperator OperatorSpec.

(** C6: [can_read] answers what [has_data_or_finished] answers on the bound
    queue, whatever the queue implementation; over the queue of the spec
    this is: a batch is ready or the producer has finished, and so an
    empty queue whose producer has not finished is not readable. *)
Theorem can_read_is_has_data_or_finished :
  (forall (Q N RS : Type) (DQ : DataQueue Q) (e : Env Q N RS),
     can_read e = has_data_or_finished (_data_queue e))
  /\
  (forall (N RS : Type) (e : Env DataQueueState N RS),
     (can_read e = true <->
      BlockQueue.ready (blocks (_data_queue e)) <> []
      \/ BlockQueue.producer_finished (blocks (_data_queue e)) = true)
     /\
     (BlockQueue.ready (blocks (_data_queue e)) = [] ->
      BlockQueue.producer_finished (blocks (_data_queue e)) = false ->
      can_read e = false)).
Proof.
  split; [reflexivity|].
  intros N RS e. unfold can_read. simpl.
  unfold BlockQueue.has_data_or_finished, BlockQueue.is_exhausted,
    BlockQueue.ready_is_empty.
  destruct (BlockQueue.ready (blocks (_data_queue e))) as [|b r],
           (BlockQueue.producer_finished (blocks (_data_queue e))); simpl.
  - split; [split; auto | discriminate].
  - split; [split; [discriminate | intros [Hn|Hf]; congruence] | reflexivity].
  - split; [split; auto | discriminate].
  - split; [split; [left; discriminate | reflexivity] | discriminate].
Qed.

Lemma can_read_is_has_data_or_finished_witness :
  can_read (mkEnv (mkDataQueue (BlockQueue.create 4) false)
                  (mkScriptedNode [] 1) tt ([] : Block) RUNNING)
  = false.
Proof.
  apply (proj2 (proj2 can_read_is_has_data_or_finished _ _
                  (mkEnv (mkDataQueue (BlockQueue.create 4) false)
                         (mkScriptedNode [] 1) tt ([] : Block) RUNNING)));
    reflexivity.
Defined.

Section Bound.

Context {N RS : Type} `{ExecNode N RS}.

Implicit Types (e : Env DataQueueState N RS).

(** What a pop does to the bound queue. *)
Lemma pop_cases (q : DataQueueState) :
  (exists b rest,
     BlockQueue.ready (blocks q) = b :: rest
     /\ get_block_from_queue q
        = (OK, Some b,
           mkDataQueue (BlockQueue.set_ready (blocks q) rest) (_data_exhausted q)))
  \/ (BlockQueue.ready (blocks q) = []
      /\ get_block_from_queue q
         = (OK, None,
            mkDataQueue (blocks q)
              (_data_exhausted q || BlockQueue.producer_finished (blocks q)))).
Proof.
  simpl. unfold BlockQueue.try_pop_ready, BlockQueue.is_exhausted,
    BlockQueue.ready_is_empty.
  destruct (BlockQueue.ready (blocks q)) as [|b rest] eqn:Hr.
  - right. split; [reflexivity|]. rewrite Hr. now rewrite andb_true_r.
  - left. now exists b, rest.
Qed.

(** Over the queue of the spec a readable queue never leaves the step
    with a null holder: either a batch is popped, or the pop raises the
    exhausted flag and the step pulls. *)
Lemma readable_step_returns e :
  can_read e = true -> exists st e' tr, get_block e = Returned st e' tr.
Proof.
  intros Hread.
  destruct (path_of e) as [Hx Hst|Hx Hst|st1 a1 q1 Hx Hp Hst|a1 q1 Hx Hp Hx' Hst
                          |a1 q1 Hx Hp Hx' Hst|b1 q1 Hx Hp Hx'|q1 Hx Hp Hx'].
  - rewrite (get_block_exhausted_ok e Hx Hst). eauto.
  - rewrite (get_block_exhausted_failed e Hx Hst). eauto.
  - rewrite (get_block_pop_failed e Hx Hp Hst). eauto.
  - rewrite (get_block_drained_ok e Hx Hp Hx' Hst). eauto.
  - rewrite (get_block_drained_failed e Hx Hp Hx' Hst). eauto.
  - rewrite (get_block_swapped e Hx Hp Hx'). eauto.
  - exfalso. unfold can_read in Hread. simpl in Hread.
    unfold BlockQueue.has_data_or_finished, BlockQueue.is_exhausted,
      BlockQueue.ready_is_empty in Hread.
    destruct (pop_cases (_data_queue e)) as [[b [rest [_ Hpop]]]|[Hr Hpop]];
      rewrite Hpop in Hp; inversion Hp; subst.
    rewrite Hr in Hread. simpl in *. rewrite andb_true_r in Hread.
    rewrite Hread in Hx'. now rewrite orb_true_r in Hx'.
Qed.

(** The exhausted flag tells the truth, and keeps telling it through a
    call: when it is raised the producer has finished and nothing is
    ready. *)
Lemma exhausted_flag_sound e :
  (data_exhausted (_data_queue e) = true ->
   BlockQueue.is_exhausted (blocks (_data_queue e)) = true) ->
  data_exhausted (_data_queue (env_after (get_block e))) = true ->
  BlockQueue.is_exhausted (blocks (_data_queue (env_after (get_block e)))) = true.
Proof.
  intros Hsound.
  assert (Hpop : forall a q', get_block_from_queue (_data_queue e) = (OK, a, q') ->
                 data_exhausted q' = true ->
                 BlockQueue.is_exhausted (blocks q') = true).
  { intros a q' Hp Hx'.
    destruct (pop_cases (_data_queue e)) as [[b [rest [Hr Hpop]]]|[Hr Hpop]];
      rewrite Hpop in Hp; inversion Hp; subst; simpl in *.
    - specialize (Hsound Hx'). unfold BlockQueue.is_exhausted,
        BlockQueue.ready_is_empty in Hsound. rewrite Hr in Hsound.
      now rewrite andb_false_r in Hsound.
    - unfold BlockQueue.is_exhausted, BlockQueue.ready_is_empty in *.
      rewrite Hr in *. rewrite andb_true_r in *.
      apply orb_true_iff in Hx' as [Hx'|Hx']; [now apply Hsound | exact Hx']. }
  destruct (path_of e) as [Hx Hst|Hx Hst|st1 a1 q1 Hx Hp Hst|a1 q1 Hx Hp Hx' Hst
                          |a1 q1 Hx Hp Hx' Hst|b1 q1 Hx Hp Hx'|q1 Hx Hp Hx'].
  - rewrite (get_block_exhausted_ok e Hx Hst). simpl. intros _. now apply Hsound.
  - rewrite (get_block_exhausted_failed e Hx Hst). simpl. intros _. now apply Hsound.
  - exfalso.
    destruct (pop_cases (_data_queue e)) as [[b [rest [_ Hpc]]]|[_ Hpc]];
      rewrite Hpc in Hp; inversion Hp; subst; discriminate.
  - rewrite (get_block_drained_ok e Hx Hp Hx' Hst). simpl. intros _.
    now apply Hpop with a1.
  - rewrite (get_block_drained_failed e Hx Hp Hx' Hst). simpl. intros _.
    now apply Hpop with a1.
  - rewrite (get_block_swapped e Hx Hp Hx'). simpl. intros Hx''.
    simpl in Hx'. congruence.
  - rewrite (get_block_null_holder e Hx Hp Hx'). simpl. intros Hx''.
    simpl in Hx'. congruence.
Qed.


End Bound.


End BoundOperatorSpec.

(** ** Scenario A: three pre-loaded batches, producer finished *)

Module ScenarioSpec.

Import StreamingAggSourceOperator OperatorSpec.

Lemma preloaded_queue (b1 b2 b3 : Block) (cap : nat) :
  3 <= cap ->
  preloaded b1 b2 b3 cap = BlockQueue.mk [b1; b2; b3] [] true false cap.
Proof.
  intros Hcap. destruct cap as [|[|[|c]]]; try lia. reflexivity.
Qed.

Section Scenario.

Context {N RS : Type} `{ExecNode N RS}.

Variables (b1 b2 b3 out : Block) (cap : nat) (n : N) (rs : RS) (ss : SourceState).

Hypothesis enough_room : 3 <= cap.

(** The legacy node is at end-of-stream: a pull reports it at once, with
    an empty batch. *)
Hypothesis pull_at_eos : forall rs' b,
  pull_status (pull n rs' b) = OK
  /\ pull_eos (pull n rs' b) = true
  /\ Batch.rows (pull_block (pull n rs' b)) = 0.

Let e0 : Env DataQueueState N RS :=
  mkEnv (mkDataQueue (preloaded b1 b2 b3 cap) false) n rs out ss.
Let o1 := get_block e0.
Let o2 := get_block (env_after o1).
Let o3 := get_block (env_after o2).
Let o4 := get_block (env_after o3).

Let n_slots := num_materialized_slots n.
Let cleared (b : Block) : Block := Batch.clear_column_data n_slots b.

Lemma swap_call (x : Block) (rest free : list Block) (blk : Block)
      (st : SourceState) :
  get_block (mkEnv (mkDataQueue (BlockQueue.mk (x :: rest) free true false cap)
                                false) n rs blk st)
  = Returned OK
      (mkEnv (mkDataQueue (BlockQueue.mk rest (cleared blk :: free) true false cap)
                          false) n rs x DEPEND_ON_SOURCE)
      [Call_get_block_from_queue OK (Some x); Call_swap x;
       Call_clear_column_data n_slots; Call_push_free_block (cleared blk)].
Proof.
  erewrite get_block_swapped; [|reflexivity|reflexivity|reflexivity].
  reflexivity.
Qed.

Lemma first_call :
  o1 = Returned OK
         (mkEnv (mkDataQueue (BlockQueue.mk [b2; b3] [cleared out] true false cap)
                             false) n rs b1 DEPEND_ON_SOURCE)
         [Call_get_block_from_queue OK (Some b1); Call_swap b1;
          Call_clear_column_data n_slots; Call_push_free_block (cleared out)].
Proof.
  unfold o1, e0. rewrite preloaded_queue by assumption. apply swap_call.
Qed.

Lemma second_call :
  o2 = Returned OK
         (mkEnv (mkDataQueue
                   (BlockQueue.mk [b3] [cleared b1; cleared out] true false cap)
                   false) n rs b2 DEPEND_ON_SOURCE)
         [Call_get_block_from_queue OK (Some b2); Call_swap b2;
          Call_clear_column_data n_slots; Call_push_free_block (cleared b1)].
Proof.
  unfold o2. rewrite first_call. unfold env_after. apply swap_call.
Qed.

Lemma third_call :
  o3 = Returned OK
         (mkEnv (mkDataQueue
                   (BlockQueue.mk [] [cleared b2; cleared b1; cleared out]
                                  true false cap)
                   false) n rs b3 DEPEND_ON_SOURCE)
         [Call_get_block_from_queue OK (Some b3); Call_swap b3;
          Call_clear_column_data n_slots; Call_push_free_block (cleared b2)].
Proof.
  unfold o3. rewrite second_call. unfold env_after. apply swap_call.
Qed.

Lemma fourth_call :
  status_of o4 = Some OK
  /\ events_of o4 = [Call_get_block_from_queue OK None; Call_pull OK true]
  /\ source_state (env_after o4) = FINISHED
  /\ Batch.rows (block (env_after o4)) = 0.
Proof.
  unfold o4. rewrite third_call. unfold env_after.
  destruct (pull_at_eos rs b3) as [Hst [Heos Hrows]].
  erewrite get_block_drained_ok; [|reflexivity|reflexivity|reflexivity|exact Hst].
  unfold after_pull, pull_event, state_of_eos, status_of, events_of.
  cbn [_node state block source_state].
  rewrite Hst, Heos, Hrows. now repeat split.
Qed.

(** C3: from a queue pre-loaded with three batches whose producer has
    marked finished, the first three calls hand out the three batches, in
    order, each with DEPEND_ON_SOURCE; the fourth call pops nothing, finds
    the queue exhausted and pulls from the legacy node, and with the legacy
    node at end-of-stream it returns FINISHED with an empty batch. *)
Theorem scenario_A :
  (status_of (get_block e0) = Some OK
   /\ block (env_after (get_block e0)) = b1
   /\ source_state (env_after (get_block e0)) = DEPEND_ON_SOURCE)
  /\
  (status_of (get_block (env_after (get_block e0))) = Some OK
   /\ block (env_after (get_block (env_after (get_block e0)))) = b2
   /\ source_state (env_after (get_block (env_after (get_block e0))))
      = DEPEND_ON_SOURCE)
  /\
  (status_of (get_block (env_after (get_block (env_after (get_block e0)))))
   = Some OK
   /\ block
        (env_after (get_block (env_after (get_block (env_after (get_block e0))))))
      = b3
   /\ source_state
        (env_after (get_block (env_after (get_block (env_after (get_block e0))))))
      = DEPEND_ON_SOURCE)
  /\
  (status_of
     (get_block
        (env_after (get_block (env_after (get_block (env_after (get_block e0)))))))
   = Some OK
   /\ events_of
        (get_block
           (env_after
              (get_block (env_after (get_block (env_after (get_block e0)))))))
      = [Call_get_block_from_queue OK None; Call_pull OK true]
   /\ source_state
        (env_after
           (get_block
              (env_after
                 (get_block (env_after (get_block (env_after (get_block e0))))))))
      = FINISHED
   /\ Batch.rows
        (block
           (env_after
              (get_block
                 (env_after
                    (get_block
                       (env_after (get_block (env_after (get_block e0)))))))))
      = 0).
Proof.
  fold o1. fold o2. fold o3. fold o4.
  split; [|split; [|split]].
  - rewrite first_call. now repeat split.
  - rewrite second_call. now repeat split.
  - rewrite third_call. now repeat split.
  - exact fourth_call.
Qed.

End Scenario.

End ScenarioSpec.

(** ** The theorems on concrete runs *)

Module Runs.

Import StreamingAggSourceOperator OperatorSpec Samples.

Lemma at_eos_pull (rs' : unit) (b : Block) :
  pull_status (pull at_eos rs' b) = OK
  /\ pull_eos (pull at_eos rs' b) = true
  /\ Batch.rows (pull_block (pull at_eos rs' b)) = 0.
Proof. repeat split. Qed.

Lemma scenario_A_witness :
  Batch.rows (block (env_after (get_block scenario_env))) = 100
  /\ block (env_after (get_block (env_after (get_block scenario_env)))) = b100 2
  /\ block
       (env_after (get_block (env_after (get_block (env_after (get_block scenario_env))))))
     = b100 3
  /\ source_state
       (env_after
          (get_block
             (env_after
                (get_block (env_after (get_block (env_after (get_block scenario_env))))))))
     = FINISHED.
Proof.
  assert (Hcap : 3 <= 8) by lia.
  destruct (@ScenarioSpec.scenario_A ScriptedNode unit _
              (b100 1) (b100 2) (b100 3) (batch_of_rows 5 9) 8 at_eos tt RUNNING
              Hcap at_eos_pull)
    as [[_ [Hb1 _]] [[_ [Hb2 _]] [[_ [Hb3 _]] [_ [_ [Hfin _]]]]]].
  split; [|split; [exact Hb2 | split; [exact Hb3 | exact Hfin]]].
  change (Batch.rows (block (env_after (get_block scenario_env))))
    with (Batch.rows
            (block (env_after
               (get_block (mkEnv (mkDataQueue
                                    (preloaded (b100 1) (b100 2) (b100 3) 8) false)
                                 at_eos tt (batch_of_rows 5 9) RUNNING))))).
  rewrite Hb1. reflexivity.
Defined.

Lemma get_block_steps_witness :
  get_block scenario_env
  = Returned OK
      (mkEnv (mkDataQueue
                (BlockQueue.mk [b100 2; b100 3] [[Batch.mkColumn [] 5]] true false 8)
                false)
             at_eos tt (b100 1) DEPEND_ON_SOURCE)
      [Call_get_block_from_queue OK (Some (b100 1));
       Call_swap (b100 1);
       Call_clear_column_data 1;
       Call_push_free_block [Batch.mkColumn [] 5]]
  /\ events_of (get_block exhausted_env) = [Call_pull OK true].
Proof.
  split.
  - exact (proj2 (proj2 (proj2 (get_block_steps scenario_env) eq_refl
                           OK (Some (b100 1))
                           (mkDataQueue
                              (BlockQueue.mk [b100 2; b100 3] [] true false 8)
                              false)
                           eq_refl))
                 eq_refl eq_refl (b100 1) eq_refl).
  - exact (proj1 (proj1 (get_block_steps exhausted_env) eq_refl)).
Defined.

Lemma get_block_source_state_witness :
  source_state (env_after (get_block exhausted_env)) = FINISHED.
Proof.
  assert (Hcall : get_block exhausted_env
                  = Returned OK (env_after (get_block exhausted_env))
                      [Call_pull OK true]) by reflexivity.
  apply (proj1 (get_block_source_state exhausted_env Hcall)).
  exists OK. left. reflexivity.
Defined.

Lemma get_block_failure_aborts_witness :
  get_block failing_pop_env
  = Returned (Failed CANCELLED "queue cancelled")
      (mkEnv (mkFailingQueue false 1) at_eos tt (batch_of_rows 5 9) RUNNING)
      [Call_get_block_from_queue (Failed CANCELLED "queue cancelled") None]
  /\ get_block failing_pull_env
     = Returned (Failed UPSTREAM_FAILURE "pull failed")
         (mkEnv (mkDataQueue
                   (BlockQueue.mark_producer_finished (BlockQueue.create 8)) true)
                (mkFailingNode 1) tt (batch_of_rows 5 9) RUNNING)
         [Call_pull (Failed UPSTREAM_FAILURE "pull failed") false].
Proof.
  split.
  - apply (proj1 (get_block_failure_aborts failing_pop_env)
             (Failed CANCELLED "queue cancelled") None (mkFailingQueue false 1));
      [reflexivity | reflexivity | discriminate].
  - assert (Hne : pull_status
                    (pull (_node failing_pull_env) (state failing_pull_env)
                          (block failing_pull_env)) <> OK)
      by (simpl; discriminate).
    apply (proj1 (proj1 (proj2 (get_block_failure_aborts failing_pull_env)) Hne)).
    reflexivity.
Defined.


End Runs.

(** * Further properties of the code *)

(** ** SchemaVariablesScanner: filling the block *)

Module ScannerFillSpec.

Import SchemaVariablesScanner.

Section WithBlock.

Variable Block : Type.
Variable sizeof_StringRef : Z.
Variable fill_dest_column : Block -> StringRef -> ColumnDesc -> Status * Block.

(** [get_next_block] succeeds exactly on an initialised scanner called with
    two non-null pointers.  The statuses [fill_dest_column] returns play no
    part: a failure to fill a cell is never reported. *)
Theorem get_next_block_ok_iff (s : Scanner) (block : option Block)
        (eos : option bool) :
  status (get_next_block sizeof_StringRef fill_dest_column s block eos) = OK
  <-> _is_init s = true /\ block <> None /\ eos <> None.
Proof.
  split.
  - intros Hok.
    destruct (ScannerSpec.get_next_block_ok_inv _ _ _ _ _ Hok)
      as [Hi [b [e [-> ->]]]].
    repeat split; congruence.
  - intros [Hi [Hb He]].
    destruct block as [b|]; [|congruence]. destruct eos as [e|]; [|congruence].
    now rewrite ScannerSpec.get_next_block_run.
Qed.

(** The two columns of a block as the scanner sees them: the cells of
    VARIABLE_NAME and the cells of VARIABLE_VALUE. *)
Variable view : Block -> list StringRef * list StringRef.

Let name_column := _s_vars_columns_at sizeof_StringRef 0.
Let value_column := _s_vars_columns_at sizeof_StringRef 1.

(** [fill_dest_column] appends the cell to the column it is given. *)
Hypothesis fill_name : forall b str,
  view (snd (fill_dest_column b str name_column))
  = (fst (view b) ++ [str], snd (view b)).
Hypothesis fill_value : forall b str,
  view (snd (fill_dest_column b str value_column))
  = (fst (view b), snd (view b) ++ [str]).

Lemma fill_loop_names (vars : list (string * string)) : forall b,
  view (fill_loop fill_dest_column fst name_column vars b)
  = (fst (view b) ++ map fst vars, snd (view b)).
Proof.
  induction vars as [|it vars IH]; intros b; simpl.
  - rewrite app_nil_r. now destruct (view b).
  - rewrite IH, fill_name. simpl. now rewrite <- app_assoc.
Qed.

Lemma fill_loop_values (vars : list (string * string)) : forall b,
  view (fill_loop fill_dest_column snd value_column vars b)
  = (fst (view b), snd (view b) ++ map snd vars).
Proof.
  induction vars as [|it vars IH]; intros b; simpl.
  - rewrite app_nil_r. now destruct (view b).
  - rewrite IH, fill_value. simpl. now rewrite <- app_assoc.
Qed.

(** With a [fill_dest_column] that appends, one successful call adds one
    row per variable, in the order of the variable map: the names go to
    VARIABLE_NAME, the values to VARIABLE_VALUE, and row [i] of the added
    rows pairs the name and the value of variable [i]. *)
Theorem get_next_block_rows (s : Scanner) (b : Block) (e : bool) :
  _is_init s = true ->
  exists b',
    get_next_block sizeof_StringRef fill_dest_column s (Some b) (Some e)
    = mkResult OK (Some b') (Some true)
    /\ view b' = (fst (view b) ++ map fst (variables s),
                  snd (view b) ++ map snd (variables s))
    /\ (view b = ([], []) ->
        combine (fst (view b')) (snd (view b')) = variables s).
Proof.
  intros Hi. eexists. split; [now apply ScannerSpec.get_next_block_run|].
  unfold _fill_block_impl. simpl. fold name_column value_column.
  rewrite fill_loop_values, fill_loop_names. simpl.
  split; [reflexivity|].
  intros Hb. rewrite Hb. simpl.
  clear. induction (variables s) as [|[n v] vars IH]; simpl; [reflexivity|].
  now rewrite IH.
Qed.

End WithBlock.

Lemma get_next_block_rows_witness :
  exists b',
    Sample.run (mkScanner true [("autocommit", "true"); ("wait_timeout", "28800")])
               (Some ([], [])) (Some false)
    = mkResult OK (Some b') (Some true)
    /\ b' = (["autocommit"; "wait_timeout"], ["true"; "28800"]).
Proof.
  destruct (@get_next_block_rows Sample.Block 16 Sample.fill_dest_column
              (fun b => b)
              (fun b str => eq_refl) (fun b str => eq_refl)
              (mkScanner true [("autocommit", "true"); ("wait_timeout", "28800")])
              ([], []) false eq_refl)
    as [b' [Hrun [Hview _]]].
  exists b'. split; [exact Hrun | exact Hview].
Defined.

End ScannerFillSpec.

(** ** SchemaVariablesScanner::start *)

Module ScannerStartSpec.

Import SchemaVariablesScanner SchemaVariablesScannerStart.

Lemma c_str_cons (c c' : Ascii.ascii) (d r : string) :
  c_str (String c d) = String c' r -> c = c' /\ c_str d = r.
Proof.
  simpl. destruct (Ascii.eqb c Ascii.zero); [discriminate|].
  intros Heq. injection Heq as -> ->. now split.
Qed.

Lemma c_str_empty (d : string) :
  c_str d = EmptyString -> d = EmptyString \/ exists rest, d = String Ascii.zero rest.
Proof.
  destruct d as [|c d]; [now left|]. simpl.
  destruct (Ascii.eqb c Ascii.zero) eqn:Hz; [|discriminate].
  apply Ascii.eqb_eq in Hz. subst c. intros _. right. now exists d.
Qed.

Ltac peel_char :=
  match goal with
  | H : c_str ?d = String _ _ |- _ =>
      destruct d as [|? ?]; [discriminate H|];
      apply c_str_cons in H; destruct H as [-> H]
  end.

(** A C string equals "GLOBAL" when the string is "GLOBAL" or goes on
    with a NUL after these six characters. *)
Lemma c_str_is_GLOBAL (d : string) :
  strcmp_is_0 d "GLOBAL" = true
  <-> d = "GLOBAL" \/ exists rest, d = ("GLOBAL" ++ String Ascii.zero rest)%string.
Proof.
  unfold strcmp_is_0. rewrite String.eqb_eq.
  change (c_str "GLOBAL") with "GLOBAL".
  split.
  - intros Hc. do 6 peel_char.
    apply c_str_empty in Hc as [->|[rest ->]]; [now left|].
    right. now exists rest.
  - intros [->|[rest ->]]; reflexivity.
Qed.

Section WithHelper.

Variable show_variables :
  string -> Z -> TShowVariableRequest -> list (string * string)
  -> Status * list (string * string).

(** Without an endpoint (a null [ip], or port 0) [start] fails with the
    internal error "IP or port doesn't exists": it makes no remote call and
    leaves the scanner, its variable list included, as it was. *)
Theorem start_without_endpoint (s : State) (p : SchemaScannerParam) :
  _param s = Some p ->
  ip p = None \/ port p = 0%Z ->
  start show_variables s
  = StartReturned (mkStarted (InternalError "IP or port doesn't exists") s []).
Proof.
  intros Hp Hno. unfold start. rewrite Hp.
  destruct (ip p) as [addr|]; [|reflexivity].
  destruct Hno as [Hip|Hport]; [discriminate|].
  now rewrite Hport.
Qed.

(** With an endpoint [start] makes exactly one remote call, to that
    endpoint, for the thread of the parameters.  The request asks for the
    global variables exactly when [db] is the C string "GLOBAL" (compared
    with case, and only up to a first NUL), or when [db] is null and the
    scanner was built for GLOBAL; every other non-null [db] asks for the
    session variables, whatever the scanner was built for.  The status of
    [start] is the status of the call. *)
Theorem start_request (s : State) (p : SchemaScannerParam) (addr : string) :
  _param s = Some p ->
  ip p = Some addr ->
  port p <> 0%Z ->
  exists request r,
    start show_variables s = StartReturned r
    /\ start_calls r = [(addr, port p, request)]
    /\ threadId request = thread_id p
    /\ (varType request = GLOBAL <->
        (exists d, db p = Some d
                   /\ (d = "GLOBAL"
                       \/ exists rest,
                            d = ("GLOBAL" ++ String Ascii.zero rest)%string))
        \/ (db p = None /\ _type s = GLOBAL))
    /\ ((exists d, db p = Some d) -> varType request <> GLOBAL ->
        varType request = SESSION)
    /\ start_status r
       = fst (show_variables addr (port p) request (variables (scanner s)))
    /\ variables (scanner (start_state r))
       = snd (show_variables addr (port p) request (variables (scanner s))).
Proof.
  intros Hparam Hip Hport. exists (var_params (_type s) p).
  unfold start. rewrite Hparam, Hip.
  apply Z.eqb_neq in Hport. rewrite Hport. simpl.
  destruct (show_variables addr (port p) (var_params (_type s) p)
              (variables (scanner s))) as [st result] eqn:Hrpc.
  eexists. split; [reflexivity|]. simpl.
  split; [reflexivity|]. split; [reflexivity|].
  split; [|split; [|split; reflexivity]].
  - unfold var_params. simpl. destruct (db p) as [d|].
    + destruct (strcmp_is_0 d "GLOBAL") eqn:Hcmp.
      * split; [|reflexivity]. intros _. left. exists d.
        split; [reflexivity|]. now apply c_str_is_GLOBAL.
      * split; [discriminate|].
        intros [[d' [Hd Hglobal]]|[Hnone _]]; [|discriminate].
        injection Hd as <-. apply c_str_is_GLOBAL in Hglobal. congruence.
    + split.
      * intros Hty. right. now split.
      * intros [[d' [Hd _]]|[_ Hty]]; [discriminate | exact Hty].
  - intros [d Hd] Hne. unfold var_params in *. simpl in *. rewrite Hd in *.
    destruct (strcmp_is_0 d "GLOBAL"); congruence.
Qed.

(** [start] reads through [_param] before anything else: with a null
    [_param] it dereferences null and makes no remote call.  When it
    returns it has changed neither [_is_init] nor [_param], and
    [get_next_block] does not look at what [start] returned: on an
    initialised scanner it returns OK with [*eos] true after [start],
    after a failed [start] too, delivering what the remote call left in
    the variable list. *)
Theorem start_then_get_next_block (Block : Type) (sizeof_StringRef : Z)
        (fill_dest_column : Block -> StringRef -> ColumnDesc -> Status * Block)
        (s : State) :
  (_param s = None -> start show_variables s = StartNullDereference)
  /\ (forall r,
        start show_variables s = StartReturned r ->
        _param s <> None
        /\ _is_init (scanner (start_state r)) = _is_init (scanner s)
        /\ _param (start_state r) = _param s
        /\ (_is_init (scanner s) = true ->
            forall (b : Block) (e : bool),
              status (get_next_block sizeof_StringRef fill_dest_column
                        (scanner (start_state r)) (Some b) (Some e)) = OK
              /\ eos_after (get_next_block sizeof_StringRef fill_dest_column
                              (scanner (start_state r)) (Some b) (Some e))
                 = Some true)).
Proof.
  split.
  - intros Hnull. unfold start. now rewrite Hnull.
  - intros r Hstart. unfold start in Hstart.
    destruct (_param s) as [p|] eqn:Hparam; [|discriminate].
    assert (Hkeep : _is_init (scanner (start_state r)) = _is_init (scanner s)
                    /\ _param (start_state r) = Some p).
    { destruct (ip p) as [addr|].
      - destruct (negb (Z.eqb (port p) 0)).
        + destruct (show_variables _ _ _ _) as [st result].
          injection Hstart as <-. now split.
        + injection Hstart as <-. now split.
      - injection Hstart as <-. now split. }
    destruct Hkeep as [Hinit Hp].
    split; [discriminate|]. split; [exact Hinit|]. split; [exact Hp|].
    intros Hi b e.
    rewrite ScannerSpec.get_next_block_run by (now rewrite Hinit).
    now split.
Qed.

End WithHelper.

(** A frontend that knows two session variables, and one that is down. *)
Definition frontend_up (addr : string) (port : Z) (r : TShowVariableRequest)
           (old : list (string * string)) : Status * list (string * string) :=
  (OK, [("autocommit", "true"); ("wait_timeout", "28800")]).

Definition frontend_down (addr : string) (port : Z) (r : TShowVariableRequest)
           (old : list (string * string)) : Status * list (string * string) :=
  (Failed UPSTREAM_FAILURE "connection refused", old).

Definition sample_param (d : option string) (addr : option string) (p : Z)
  : SchemaScannerParam :=
  mkParam d 7 addr p.

Definition sample_state (d : option string) (addr : option string) (p : Z)
  : State :=
  mkState (mkScanner true []) (Some (sample_param d addr p)) GLOBAL.

Lemma start_without_endpoint_witness :
  start frontend_up (sample_state (Some "GLOBAL") (Some "127.0.0.1") 0)
  = StartReturned
      (mkStarted (InternalError "IP or port doesn't exists")
         (sample_state (Some "GLOBAL") (Some "127.0.0.1") 0) []).
Proof.
  apply (start_without_endpoint frontend_up
           (sample_state (Some "GLOBAL") (Some "127.0.0.1") 0)
           (p := sample_param (Some "GLOBAL") (Some "127.0.0.1") 0) eq_refl).
  right. reflexivity.
Defined.

Lemma start_request_witness :
  exists request r,
    start frontend_up (sample_state (Some "global") (Some "127.0.0.1") 9020)
    = StartReturned r
    /\ start_calls r = [("127.0.0.1", 9020%Z, request)]
    /\ threadId request = 7%Z.
Proof.
  assert (Hport : port (sample_param (Some "global") (Some "127.0.0.1") 9020)
                  <> 0%Z) by discriminate.
  destruct (start_request frontend_up
              (sample_state (Some "global") (Some "127.0.0.1") 9020)
              (p := sample_param (Some "global") (Some "127.0.0.1") 9020)
              eq_refl eq_refl Hport)
    as [request [r [Hstart [Hcalls [Hthread _]]]]].
  exists request, r. split; [exact Hstart|]. split; [exact Hcalls | exact Hthread].
Defined.

Lemma start_then_get_next_block_witness :
  start frontend_down (mkState (mkScanner false []) None SESSION)
  = StartNullDereference.
Proof.
  apply (proj1 (start_then_get_next_block frontend_down 16 Sample.fill_dest_column
                  (mkState (mkScanner false []) None SESSION))).
  reflexivity.
Defined.

End ScannerStartSpec.

(** ** StreamingAggSourceOperator::get_block: what a call does and leaves alone *)

Module OperatorFrameSpec.

Import StreamingAggSourceOperator OperatorSpec.

Definition is_swap (ev : Event) : bool :=
  match ev with Call_swap _ => true | _ => false end.

Definition is_recycle (ev : Event) : bool :=
  match ev with Call_push_free_block _ => true | _ => false end.

Definition swaps (tr : list Event) : nat := length (filter is_swap tr).
Definition recycles (tr : list Event) : nat := length (filter is_recycle tr).

Section Operator.

Context {Q N RS : Type} `{DataQueue Q} `{ExecNode N RS}.

Implicit Types (e : Env Q N RS) (q : Q).

(** The seven ways through a call, with what each leaves behind. *)
Ltac by_path e :=
  destruct (path_of e) as [Hx Hst|Hx Hst|st1 a1 q1 Hx Hp Hst|a1 q1 Hx Hp Hx' Hst
                          |a1 q1 Hx Hp Hx' Hst|b1 q1 Hx Hp Hx'|q1 Hx Hp Hx'];
  [ rewrite (get_block_exhausted_ok e Hx Hst)
  | rewrite (get_block_exhausted_failed e Hx Hst)
  | rewrite (get_block_pop_failed e Hx Hp Hst)
  | rewrite (get_block_drained_ok e Hx Hp Hx' Hst)
  | rewrite (get_block_drained_failed e Hx Hp Hx' Hst)
  | rewrite (get_block_swapped e Hx Hp Hx')
  | rewrite (get_block_null_holder e Hx Hp Hx') ].

(** Every call fills the output block from at most one source: it pops at
    most once, pulls at most once, swaps at most once, recycles a holder
    exactly when it swapped, and never both pulls and swaps.  A call that
    returns OK used exactly one of the two sources. *)
Theorem get_block_one_source e :
  pops (events_of (get_block e)) <= 1
  /\ pulls (events_of (get_block e)) <= 1
  /\ recycles (events_of (get_block e)) = swaps (events_of (get_block e))
  /\ pulls (events_of (get_block e)) + swaps (events_of (get_block e)) <= 1
  /\ (status_of (get_block e) = Some OK ->
      pulls (events_of (get_block e)) + swaps (events_of (get_block e)) = 1).
Proof.
  unfold pops, pulls, recycles, swaps.
  by_path e; unfold pull_event; simpl; repeat split; try lia; intros Hok;
    try discriminate Hok;
    injection Hok as Hok; rewrite Hok in Hst; discriminate Hst.
Qed.

(** A successful pop that leaves the queue exhausted counts for nothing:
    the call ends as a call that finds the queue exhausted at entry would,
    with the same status, the same output block, source state, node and
    queue, and whatever the pop put into the holder is dropped: it reaches
    neither the output block nor the free-list. *)
Theorem pop_into_exhaustion_is_dropped e agg_block q' :
  data_exhausted (_data_queue e) = false ->
  get_block_from_queue (_data_queue e) = (OK, agg_block, q') ->
  data_exhausted q' = true ->
  status_of (get_block e)
  = status_of (get_block (mkEnv q' (_node e) (state e) (block e) (source_state e)))
  /\ env_after (get_block e)
     = env_after (get_block (mkEnv q' (_node e) (state e) (block e) (source_state e)))
  /\ events_of (get_block e)
     = Call_get_block_from_queue OK agg_block
       :: events_of (get_block (mkEnv q' (_node e) (state e) (block e)
                                      (source_state e)))
  /\ swaps (events_of (get_block e)) = 0
  /\ recycles (events_of (get_block e)) = 0.
Proof.
  intros Hex Hpop Hex'.
  set (e1 := mkEnv q' (_node e) (state e) (block e) (source_state e)).
  assert (Hex1 : data_exhausted (_data_queue e1) = true) by exact Hex'.
  destruct (ok (pull_status (pull (_node e) (state e) (block e)))) eqn:Hst.
  - apply ok_true_iff in Hst.
    rewrite (get_block_drained_ok e Hex Hpop Hex' Hst).
    rewrite (get_block_exhausted_ok e1 Hex1 Hst).
    unfold swaps, recycles, pull_event. simpl. now repeat split.
  - rewrite (get_block_drained_failed e Hex Hpop Hex' Hst).
    rewrite (get_block_exhausted_failed e1 Hex1 Hst).
    unfold swaps, recycles, pull_event. simpl. now repeat split.
Qed.

(** A call that makes no pull leaves the legacy node and the runtime state
    as they were; a call that neither pulls nor swaps leaves the output
    block as it was; a call that pops nothing leaves the queue as it was
    when it did not recycle. *)
Theorem get_block_frame e :
  (pulls (events_of (get_block e)) = 0 ->
   _node (env_after (get_block e)) = _node e
   /\ state (env_after (get_block e)) = state e)
  /\ (pulls (events_of (get_block e)) + swaps (events_of (get_block e)) = 0 ->
      block (env_after (get_block e)) = block e
      /\ source_state (env_after (get_block e)) = source_state e)
  /\ (pops (events_of (get_block e)) = 0 ->
      _data_queue (env_after (get_block e)) = _data_queue e).
Proof.
  unfold pops, pulls, swaps.
  by_path e; unfold pull_event, after_pull; simpl;
    repeat split; intros; try reflexivity; try discriminate; try lia.
Qed.

(** A call dereferences a null holder in one case only: the queue is not
    exhausted at entry, the pop returns OK without a batch, and the queue
    is not exhausted after the pop either.  In every other case the call
    returns a status. *)
Theorem get_block_crashes_iff e :
  status_of (get_block e) = None
  <-> data_exhausted (_data_queue e) = false
      /\ exists q',
           get_block_from_queue (_data_queue e) = (OK, None, q')
           /\ data_exhausted q' = false.
Proof.
  split.
  - intros Hcrash.
    destruct (path_of e) as [Hx Hst|Hx Hst|st1 a1 q1 Hx Hp Hst|a1 q1 Hx Hp Hx' Hst
                            |a1 q1 Hx Hp Hx' Hst|b1 q1 Hx Hp Hx'|q1 Hx Hp Hx'].
    + rewrite (get_block_exhausted_ok e Hx Hst) in Hcrash. discriminate.
    + rewrite (get_block_exhausted_failed e Hx Hst) in Hcrash. discriminate.
    + rewrite (get_block_pop_failed e Hx Hp Hst) in Hcrash. discriminate.
    + rewrite (get_block_drained_ok e Hx Hp Hx' Hst) in Hcrash. discriminate.
    + rewrite (get_block_drained_failed e Hx Hp Hx' Hst) in Hcrash. discriminate.
    + rewrite (get_block_swapped e Hx Hp Hx') in Hcrash. discriminate.
    + split; [exact Hx|]. now exists q1.
  - intros [Hx [q' [Hp Hx']]].
    now rewrite (get_block_null_holder e Hx Hp Hx').
Qed.

End Operator.

End OperatorFrameSpec.

(** ** DecimalV3Type *)

Module DecimalV3Spec.

Import DecimalV3Type.

Local Open Scope Z_scope.

Lemma wrap_in_range (z : Z) : JavaInt.in_range z -> JavaInt.wrap z = z.
Proof.
  unfold JavaInt.in_range, JavaInt.MIN_VALUE, JavaInt.MAX_VALUE, JavaInt.wrap.
  intros Hz. rewrite Z.mod_small; lia.
Qed.

Lemma sub_well_formed (d : t) :
  well_formed d -> JavaInt.sub (precision d) (scale d) = precision d - scale d.
Proof.
  unfold well_formed, MAX_DECIMAL128_PRECISION. intros Hd.
  apply wrap_in_range.
  unfold JavaInt.in_range, JavaInt.MIN_VALUE, JavaInt.MAX_VALUE. lia.
Qed.

Lemma checkArgument_normal (b : bool) (u : unit) :
  checkArgument b = Normal u <-> b = true.
Proof. destruct b, u; simpl; split; congruence. Qed.

Lemma new_normal (p s : Z) (d : t) :
  new p s = Normal d <-> 0 < p <= MAX_DECIMAL128_PRECISION /\ d = mk p s.
Proof.
  unfold new, checkArgument, and_then.
  destruct ((0 <? p) && (p <=? MAX_DECIMAL128_PRECISION)) eqn:Hc.
  - apply andb_true_iff in Hc as [H1 H2].
    apply Z.ltb_lt in H1. apply Z.leb_le in H2.
    split; [intros Heq; injection Heq as <-; now split | intros [_ ->]; reflexivity].
  - apply andb_false_iff in Hc.
    split; [discriminate|]. intros [[H1 H2] _].
    destruct Hc as [Hc|Hc]; [apply Z.ltb_ge in Hc | apply Z.leb_gt in Hc]; lia.
Qed.

Lemma createDecimalV3Type_normal (p s : Z) (d : t) :
  createDecimalV3Type p s = Normal d
  <-> 0 < p <= MAX_DECIMAL128_PRECISION /\ 0 <= s <= p /\ d = mk p s.
Proof.
  unfold createDecimalV3Type.
  destruct ((0 <? p) && (p <=? MAX_DECIMAL128_PRECISION)) eqn:Hc; simpl.
  - destruct (s >=? 0) eqn:Hs; simpl.
    + destruct (p >=? s) eqn:Hps; simpl.
      * rewrite new_normal. apply Z.geb_le in Hs. apply Z.geb_le in Hps. tauto.
      * split; [discriminate|]. intros [_ [[_ Hle] _]].
        rewrite Z.geb_leb in Hps. apply Z.leb_gt in Hps. lia.
    + split; [discriminate|]. intros [_ [[Hle _] _]].
      rewrite Z.geb_leb in Hs. apply Z.leb_gt in Hs. lia.
  - apply andb_false_iff in Hc.
    split; [discriminate|]. intros [[H1 H2] _].
    destruct Hc as [Hc|Hc]; [apply Z.ltb_ge in Hc | apply Z.leb_gt in Hc]; lia.
Qed.

Lemma createDecimalV3Type_throws (p s : Z) :
  createDecimalV3Type p s = IllegalArgumentException
  <-> ~ (0 < p <= MAX_DECIMAL128_PRECISION /\ 0 <= s <= p).
Proof.
  destruct (createDecimalV3Type p s) as [d|] eqn:Hc.
  - apply createDecimalV3Type_normal in Hc. split; [discriminate|]. tauto.
  - split; [|reflexivity]. intros _ [Hp Hs].
    assert (Hn : createDecimalV3Type p s = Normal (mk p s))
      by (apply createDecimalV3Type_normal; tauto).
    congruence.
Qed.

Section WithHierarchy.

Variable DEFAULT_SCALE : Z.
Variable instanceof_IntegralType : DataType -> bool.

(** The static initialisers run without an exception. *)
Lemma statics_construct :
  new MAX_DECIMAL32_PRECISION DEFAULT_SCALE = Normal (DEFAULT_DECIMAL32 DEFAULT_SCALE)
  /\ new MAX_DECIMAL64_PRECISION DEFAULT_SCALE = Normal (DEFAULT_DECIMAL64 DEFAULT_SCALE)
  /\ new MAX_DECIMAL128_PRECISION DEFAULT_SCALE = Normal (DEFAULT_DECIMAL128 DEFAULT_SCALE)
  /\ new 1 0 = Normal BOOLEAN_DECIMAL /\ new 3 0 = Normal TINYINT_DECIMAL
  /\ new 5 0 = Normal SMALLINT_DECIMAL /\ new 10 0 = Normal INTEGER_DECIMAL
  /\ new 20 0 = Normal BIGINT_DECIMAL /\ new 38 0 = Normal LARGEINT_DECIMAL
  /\ new 14 7 = Normal FLOAT_DECIMAL /\ new 30 15 = Normal DOUBLE_DECIMAL.
Proof. repeat split. Qed.

(** Two levels of [isWiderThanInternal] are enough, and more change
    nothing: the call always ends. *)
Lemma isWiderThanInternal_fuel (n : nat) (this : t) (other : DataType) :
  isWiderThanInternal DEFAULT_SCALE instanceof_IntegralType (S (S n)) this other
  = isWiderThan DEFAULT_SCALE instanceof_IntegralType this other
  /\ isWiderThan DEFAULT_SCALE instanceof_IntegralType this other <> None.
Proof.
  unfold isWiderThan. simpl.
  destruct other; try (split; [reflexivity | discriminate]);
    destruct (instanceof_IntegralType _);
    try (split; [reflexivity | discriminate]);
    destruct (forType _ _); split; try reflexivity; discriminate.
Qed.

(** On two decimal types [isWiderThan] compares integer digits and
    scales. *)
Lemma isWiderThan_decimal (a b : t) :
  well_formed a -> well_formed b ->
  isWiderThan DEFAULT_SCALE instanceof_IntegralType a (DecimalV3 b)
  = Some (Normal ((precision a - scale a >=? precision b - scale b)
                  && (scale a >=? scale b))).
Proof.
  intros Ha Hb. unfold isWiderThan. simpl.
  now rewrite !sub_well_formed.
Qed.

Lemma isWiderThan_decimal_true (a b : t) :
  well_formed a -> well_formed b ->
  (isWiderThan DEFAULT_SCALE instanceof_IntegralType a (DecimalV3 b)
   = Some (Normal true)
   <-> precision b - scale b <= precision a - scale a /\ scale b <= scale a).
Proof.
  intros Ha Hb. rewrite isWiderThan_decimal by assumption.
  split.
  - intros Heq. injection Heq as Heq. apply andb_true_iff in Heq as [H1 H2].
    apply Z.geb_le in H1. apply Z.geb_le in H2. now split.
  - intros [H1 H2]. do 2 f_equal. apply andb_true_iff.
    split; now apply Z.geb_le.
Qed.

(** [forType] throws in one case only: a [DecimalV2Type] whose precision
    and scale [createDecimalV3Type] rejects (precision outside 1..38, or a
    scale that is negative or above the precision).  For every other type
    it returns normally. *)
Theorem forType_throws_iff (dataType : DataType) :
  forType DEFAULT_SCALE dataType = IllegalArgumentException
  <-> exists p s,
        dataType = DecimalV2Type p s
        /\ ~ (0 < p <= MAX_DECIMAL128_PRECISION /\ 0 <= s <= p).
Proof.
  split.
  - unfold forType.
    destruct dataType as [| | | | | | | |p s|d|n]; simpl; try discriminate.
    intros Hthrow. apply createDecimalV3Type_throws in Hthrow.
    exists p, s. split; [reflexivity | exact Hthrow].
  - intros [p [s [-> Hbad]]]. unfold forType. simpl.
    now apply createDecimalV3Type_throws.
Qed.

(** Every object the factory methods return has a precision in 1..38 and
    a scale between 0 and its precision, provided the inherited default
    scale lies between 0 and 38 ([forType] hands out [SYSTEM_DEFAULT],
    which carries that scale unchecked). *)
Theorem factories_well_formed :
  0 <= DEFAULT_SCALE <= MAX_DECIMAL128_PRECISION ->
  (forall p s d, createDecimalV3Type p s = Normal d ->
                 well_formed d /\ getPrecision d = p /\ getScale d = s)
  /\ (forall p d, createDecimalV3Type_precision DEFAULT_SCALE p = Normal d ->
                  well_formed d /\ getPrecision d = p /\ getScale d = DEFAULT_SCALE)
  /\ (forall dataType d, forType DEFAULT_SCALE dataType = Normal d -> well_formed d)
  /\ (forall left right d,
        widerDecimalV3Type DEFAULT_SCALE left right = Normal d -> well_formed d).
Proof.
  intros HD.
  assert (Hcreate : forall p s d, createDecimalV3Type p s = Normal d ->
                    well_formed d /\ getPrecision d = p /\ getScale d = s).
  { intros p s d Hc. apply createDecimalV3Type_normal in Hc as [Hp [Hs ->]].
    unfold well_formed. simpl. tauto. }
  split; [exact Hcreate|]. split; [|split].
  - intros p d Hc. now apply Hcreate.
  - intros dataType d Hf. unfold forType in Hf.
    destruct dataType as [| | | | | | | |p s|d0|n]; simpl in Hf;
      try (injection Hf as <-;
           unfold well_formed, SYSTEM_DEFAULT, DEFAULT_DECIMAL128,
             MAX_DECIMAL128_PRECISION in *;
           simpl; lia).
    now apply Hcreate in Hf.
  - intros left right d Hw. now apply Hcreate in Hw.
Qed.

(** [width] is 4, 8 or 16, and it is the least of these byte counts whose
    two's-complement range holds every unscaled value of the type: all
    integers of at most [precision] decimal digits fit, and for a width
    above 4 the largest of them does not fit in half as many bytes. *)
Theorem width_fits (d : t) :
  0 < precision d <= MAX_DECIMAL128_PRECISION ->
  (width d = 4 \/ width d = 8 \/ width d = 16)
  /\ (forall unscaled,
        has_unscaled d unscaled ->
        - 2 ^ (8 * width d - 1) <= unscaled < 2 ^ (8 * width d - 1))
  /\ (4 < width d ->
      has_unscaled d (10 ^ precision d - 1)
      /\ 2 ^ (8 * (width d / 2) - 1) <= 10 ^ precision d - 1).
Proof.
  unfold MAX_DECIMAL128_PRECISION. intros Hp.
  assert (Hpos : 0 < 10 ^ precision d) by (apply Z.pow_pos_nonneg; lia).
  unfold width, has_unscaled, MAX_DECIMAL32_PRECISION, MAX_DECIMAL64_PRECISION.
  destruct (precision d <=? 9) eqn:H9; [|destruct (precision d <=? 18) eqn:H18].
  - apply Z.leb_le in H9. split; [now left|]. split; [|lia].
    intros m Hm.
    assert (Hle : 10 ^ precision d <= 10 ^ 9) by (apply Z.pow_le_mono_r; lia).
    change (8 * 4 - 1) with 31.
    assert (H31 : 10 ^ 9 < 2 ^ 31) by reflexivity. lia.
  - apply Z.leb_gt in H9. apply Z.leb_le in H18.
    split; [right; now left|]. split.
    + intros m Hm.
      assert (Hle : 10 ^ precision d <= 10 ^ 18) by (apply Z.pow_le_mono_r; lia).
      change (8 * 8 - 1) with 63.
      assert (H63 : 10 ^ 18 < 2 ^ 63) by reflexivity. lia.
    + intros _. split; [lia|].
      assert (Hge : 10 ^ 10 <= 10 ^ precision d) by (apply Z.pow_le_mono_r; lia).
      change (8 * (8 / 2) - 1) with 31.
      assert (H31 : 2 ^ 31 <= 10 ^ 10 - 1) by (vm_compute; discriminate). lia.
  - apply Z.leb_gt in H9. apply Z.leb_gt in H18.
    split; [right; now right|]. split.
    + intros m Hm.
      assert (Hle : 10 ^ precision d <= 10 ^ 38) by (apply Z.pow_le_mono_r; lia).
      change (8 * 16 - 1) with 127.
      assert (H127 : 10 ^ 38 < 2 ^ 127) by reflexivity. lia.
    + intros _. split; [lia|].
      assert (Hge : 10 ^ 19 <= 10 ^ precision d) by (apply Z.pow_le_mono_r; lia).
      change (8 * (16 / 2) - 1) with 63.
      assert (H63 : 2 ^ 63 <= 10 ^ 19 - 1) by (vm_compute; discriminate). lia.
Qed.

Lemma pow10_pos (k : Z) : 0 <= k -> 0 < 10 ^ k.
Proof. intros Hk. apply Z.pow_pos_nonneg; lia. Qed.

Lemma pow10_split (a b : Z) : 0 <= b <= a -> 10 ^ a = 10 ^ (a - b) * 10 ^ b.
Proof.
  intros Hab. rewrite <- Z.pow_add_r by lia. f_equal. lia.
Qed.

(** [isWiderThan] on two decimal types is inclusion of their values: it
    answers true exactly when every value of the other type (an unscaled
    integer of at most [precision] digits over [10 ^ scale]) is a value of
    this type. *)
Theorem isWiderThan_is_inclusion (a b : t) :
  well_formed a -> well_formed b ->
  (isWiderThan DEFAULT_SCALE instanceof_IntegralType a (DecimalV3 b)
   = Some (Normal true)
   <-> forall m, has_unscaled b m ->
                 exists n, has_unscaled a n /\ n * 10 ^ scale b = m * 10 ^ scale a).
Proof.
  intros Ha Hb. rewrite isWiderThan_decimal_true by assumption.
  destruct Ha as [Hpa Hsa], Hb as [Hpb Hsb].
  unfold has_unscaled, MAX_DECIMAL128_PRECISION in *.
  split.
  - intros [Hint Hscale] m Hm.
    exists (m * 10 ^ (scale a - scale b)). split.
    + rewrite Z.abs_mul.
      rewrite (Z.abs_eq (10 ^ (scale a - scale b)))
        by (apply Z.lt_le_incl, pow10_pos; lia).
      apply Z.lt_le_trans with (10 ^ precision b * 10 ^ (scale a - scale b)).
      * apply Z.mul_lt_mono_pos_r; [apply pow10_pos; lia | exact Hm].
      * rewrite <- Z.pow_add_r by lia. apply Z.pow_le_mono_r; lia.
    + rewrite <- Z.mul_assoc. f_equal. symmetry. apply pow10_split. lia.
  - intros Hincl.
    assert (Hscale : scale b <= scale a).
    { destruct (Z.le_gt_cases (scale b) (scale a)) as [Hle|Hgt]; [exact Hle|].
      exfalso.
      destruct (Hincl 1) as [n [_ Hn]].
      { simpl. apply Z.lt_le_trans with (10 ^ 1); [reflexivity|].
        apply Z.pow_le_mono_r; lia. }
      rewrite (@pow10_split (scale b) (scale a)) in Hn by lia.
      rewrite Z.mul_assoc in Hn. apply Z.mul_reg_r in Hn;
        [|pose proof (@pow10_pos (scale a)); lia].
      assert (Hk : 10 ^ 1 <= 10 ^ (scale b - scale a))
        by (apply Z.pow_le_mono_r; lia).
      change (10 ^ 1) with 10 in Hk.
      destruct (Z.le_gt_cases n 0) as [Hn0|Hn0].
      - assert (n * 10 ^ (scale b - scale a) <= 0)
          by (apply Z.mul_nonpos_nonneg; lia).
        lia.
      - assert (1 * 10 ^ (scale b - scale a) <= n * 10 ^ (scale b - scale a))
          by (apply Z.mul_le_mono_nonneg_r; lia).
        lia. }
    split; [|exact Hscale].
    destruct (Z.le_gt_cases (precision b - scale b) (precision a - scale a))
      as [Hle|Hgt]; [exact Hle|].
    exfalso.
    destruct (Hincl (10 ^ precision b - 1)) as [n [Hna Hn]].
    { pose proof (@pow10_pos (precision b)). lia. }
    rewrite (@pow10_split (scale a) (scale b)) in Hn by lia.
    rewrite Z.mul_assoc in Hn. apply Z.mul_reg_r in Hn;
      [|pose proof (@pow10_pos (scale b)); lia].
    assert (Hdigit : 10 ^ (precision b - 1) <= 10 ^ precision b - 1).
    { replace (precision b) with (Z.succ (precision b - 1)) at 2 by lia.
      rewrite Z.pow_succ_r by lia.
      pose proof (@pow10_pos (precision b - 1)). lia. }
    assert (Hbig : 10 ^ precision a
                   <= 10 ^ (precision b - 1) * 10 ^ (scale a - scale b)).
    { rewrite <- Z.pow_add_r by lia. apply Z.pow_le_mono_r; lia. }
    assert (Hk : 0 < 10 ^ (scale a - scale b)) by (apply pow10_pos; lia).
    assert (Hn0 : 10 ^ precision a <= n).
    { subst n. apply Z.le_trans with (1 := Hbig).
      apply Z.mul_le_mono_nonneg_r; lia. }
    pose proof (@pow10_pos (precision a)). lia.
Qed.

(** On the objects of the factory methods [isWiderThan] is a partial
    order: every type is wider than itself, two types each wider than the
    other have the same precision and scale, and wider-than carries over
    two steps. *)
Theorem isWiderThan_partial_order (a b c : t) :
  well_formed a -> well_formed b -> well_formed c ->
  isWiderThan DEFAULT_SCALE instanceof_IntegralType a (DecimalV3 a)
  = Some (Normal true)
  /\ (isWiderThan DEFAULT_SCALE instanceof_IntegralType a (DecimalV3 b)
      = Some (Normal true) ->
      isWiderThan DEFAULT_SCALE instanceof_IntegralType b (DecimalV3 a)
      = Some (Normal true) ->
      a = b)
  /\ (isWiderThan DEFAULT_SCALE instanceof_IntegralType a (DecimalV3 b)
      = Some (Normal true) ->
      isWiderThan DEFAULT_SCALE instanceof_IntegralType b (DecimalV3 c)
      = Some (Normal true) ->
      isWiderThan DEFAULT_SCALE instanceof_IntegralType a (DecimalV3 c)
      = Some (Normal true)).
Proof.
  intros Ha Hb Hc. rewrite !isWiderThan_decimal_true by assumption.
  split; [lia|]. split.
  - intros [H1 H2] [H3 H4]. destruct a as [pa sa], b as [pb sb]. simpl in *.
    f_equal; lia.
  - intros [H1 H2] [H3 H4]. lia.
Qed.

(** [widerDecimalV3Type] keeps the larger precision and nothing of the
    scales: it returns [DECIMAL(max, DEFAULT_SCALE)], and throws when the
    default scale is negative or above that precision.  The operands may
    be swapped.  The result is wider than both operands when both have the
    default scale, and it is not wider than an operand whose scale is
    above the default scale. *)
Theorem widerDecimalV3Type_result (left right : t) :
  well_formed left -> well_formed right ->
  (forall d,
     widerDecimalV3Type DEFAULT_SCALE left right = Normal d
     <-> 0 <= DEFAULT_SCALE <= Z.max (precision left) (precision right)
         /\ d = mk (Z.max (precision left) (precision right)) DEFAULT_SCALE)
  /\ widerDecimalV3Type DEFAULT_SCALE left right
     = widerDecimalV3Type DEFAULT_SCALE right left
  /\ (forall d,
        widerDecimalV3Type DEFAULT_SCALE left right = Normal d ->
        (scale left = DEFAULT_SCALE -> scale right = DEFAULT_SCALE ->
         isWiderThan DEFAULT_SCALE instanceof_IntegralType d (DecimalV3 left)
         = Some (Normal true)
         /\ isWiderThan DEFAULT_SCALE instanceof_IntegralType d (DecimalV3 right)
            = Some (Normal true))
        /\ (DEFAULT_SCALE < scale left ->
            isWiderThan DEFAULT_SCALE instanceof_IntegralType d (DecimalV3 left)
            = Some (Normal false))).
Proof.
  intros Hl Hr.
  assert (Hres : forall d,
     widerDecimalV3Type DEFAULT_SCALE left right = Normal d
     <-> 0 <= DEFAULT_SCALE <= Z.max (precision left) (precision right)
         /\ d = mk (Z.max (precision left) (precision right)) DEFAULT_SCALE).
  { intros d. unfold widerDecimalV3Type, widerDecimalV3Type_precisions,
      createDecimalV3Type_precision, getPrecision.
    rewrite createDecimalV3Type_normal.
    destruct Hl as [Hpl _], Hr as [Hpr _].
    unfold MAX_DECIMAL128_PRECISION in *. split.
    - intros [_ [HD ->]]. now split.
    - intros [HD ->]. split; [lia|]. now split. }
  split; [exact Hres|]. split.
  - unfold widerDecimalV3Type, widerDecimalV3Type_precisions, getPrecision.
    now rewrite Z.max_comm.
  - intros d Hd. apply Hres in Hd as [HD ->].
    assert (Hwf : well_formed
                    (mk (Z.max (precision left) (precision right)) DEFAULT_SCALE)).
    { destruct Hl as [Hpl _], Hr as [Hpr _].
      unfold well_formed, MAX_DECIMAL128_PRECISION in *. simpl. lia. }
    split.
    + intros Hsl Hsr. split; apply isWiderThan_decimal_true; try assumption;
        simpl; lia.
    + intros Hlt. rewrite isWiderThan_decimal by assumption. simpl.
      do 2 f_equal. apply andb_false_iff. right.
      rewrite Z.geb_leb. apply Z.leb_gt. exact Hlt.
Qed.

(** Against an integral type [isWiderThan] compares with the decimal type
    [forType] gives for it.  For the five integral keys of [FOR_TYPE_MAP]:
    a decimal is wider than TINYINT, SMALLINT, INT and BIGINT exactly when
    it has at least 3, 5, 10 and 20 integer digits, and wider than
    LARGEINT only as DECIMAL(38, 0); so a decimal wider than one of them is
    wider than the ones before it.  A type that is neither a
    [DecimalV3Type] nor integral is never covered. *)
Theorem isWiderThan_integral (d : t) :
  well_formed d ->
  instanceof_IntegralType TinyIntType = true ->
  instanceof_IntegralType SmallIntType = true ->
  instanceof_IntegralType IntegerType = true ->
  instanceof_IntegralType BigIntType = true ->
  instanceof_IntegralType LargeIntType = true ->
  (isWiderThan DEFAULT_SCALE instanceof_IntegralType d TinyIntType
   = Some (Normal true) <-> 3 <= precision d - scale d)
  /\ (isWiderThan DEFAULT_SCALE instanceof_IntegralType d SmallIntType
      = Some (Normal true) <-> 5 <= precision d - scale d)
  /\ (isWiderThan DEFAULT_SCALE instanceof_IntegralType d IntegerType
      = Some (Normal true) <-> 10 <= precision d - scale d)
  /\ (isWiderThan DEFAULT_SCALE instanceof_IntegralType d BigIntType
      = Some (Normal true) <-> 20 <= precision d - scale d)
  /\ (isWiderThan DEFAULT_SCALE instanceof_IntegralType d LargeIntType
      = Some (Normal true) <-> d = mk 38 0)
  /\ (forall other,
        instanceof_IntegralType other = false ->
        (forall d', other <> DecimalV3 d') ->
        isWiderThan DEFAULT_SCALE instanceof_IntegralType d other
        = Some (Normal false)).
Proof.
  intros Hd Ht Hs Hi Hb Hl.
  assert (Hkey : forall other k,
            instanceof_IntegralType other = true ->
            FOR_TYPE_MAP other = Some k ->
            isWiderThan DEFAULT_SCALE instanceof_IntegralType d other
            = isWiderThan DEFAULT_SCALE instanceof_IntegralType d (DecimalV3 k)).
  { intros other k Hint Hmap. unfold isWiderThan.
    destruct other; try discriminate Hmap; simpl; rewrite Hint;
      unfold forType; simpl; injection Hmap as <-; reflexivity. }
  assert (Hwf : forall p, 0 < p <= 38 -> well_formed (mk p 0)).
  { intros p Hp. unfold well_formed, MAX_DECIMAL128_PRECISION. simpl. lia. }
  pose proof Hd as [Hp Hsc]. unfold MAX_DECIMAL128_PRECISION in Hp.
  repeat split.
  1-8: (erewrite Hkey by (try eassumption; reflexivity);
         rewrite isWiderThan_decimal_true by (try assumption; apply Hwf; lia);
         simpl; intros; lia).
  - erewrite Hkey by (try eassumption; reflexivity).
    rewrite isWiderThan_decimal_true by (try assumption; apply Hwf; lia).
    simpl. intros [H1 H2]. destruct d as [p s]. simpl in *. f_equal; lia.
  - erewrite Hkey by (try eassumption; reflexivity).
    rewrite isWiderThan_decimal_true by (try assumption; apply Hwf; lia).
    intros ->. simpl. lia.
  - intros other Hno Hnotdec. unfold isWiderThan.
    destruct other as [| | | | | | | |p s|d'|n]; simpl; rewrite ?Hno;
      try reflexivity.
    now elim (Hnotdec d').
Qed.

End WithHierarchy.

(** A hierarchy to run the code on: default scale 0, and the five integer
    types as the integral ones. *)
Definition sample_integral (dataType : DataType) : bool :=
  match dataType with
  | TinyIntType | SmallIntType | IntegerType | BigIntType | LargeIntType => true
  | _ => false
  end.

Ltac wf := unfold well_formed, MAX_DECIMAL128_PRECISION; simpl; lia.

Lemma factories_well_formed_witness :
  forType 0 (DecimalV2Type 27 9) = Normal (mk 27 9) /\ well_formed (mk 27 9).
Proof.
  assert (HD : 0 <= 0 <= MAX_DECIMAL128_PRECISION)
    by (unfold MAX_DECIMAL128_PRECISION; lia).
  split; [reflexivity|].
  apply (proj1 (proj2 (proj2 (factories_well_formed HD)))
           (DecimalV2Type 27 9) (mk 27 9)).
  reflexivity.
Defined.

Lemma width_fits_witness :
  - 2 ^ (8 * width (mk 10 2) - 1) <= 9999999999 < 2 ^ (8 * width (mk 10 2) - 1).
Proof.
  assert (Hp : 0 < precision (mk 10 2) <= MAX_DECIMAL128_PRECISION)
    by (unfold MAX_DECIMAL128_PRECISION; simpl; lia).
  apply (proj1 (proj2 (width_fits (mk 10 2) Hp))).
  unfold has_unscaled. simpl. lia.
Defined.

Lemma isWiderThan_is_inclusion_witness :
  exists n, has_unscaled (mk 10 4) n /\ n * 10 ^ 2 = 12345 * 10 ^ 4.
Proof.
  assert (Ha : well_formed (mk 10 4)) by wf.
  assert (Hb : well_formed (mk 5 2)) by wf.
  apply (proj1 (isWiderThan_is_inclusion 0 sample_integral Ha Hb) eq_refl 12345).
  unfold has_unscaled. simpl. lia.
Defined.

Lemma isWiderThan_partial_order_witness :
  isWiderThan 0 sample_integral (mk 10 4) (DecimalV3 (mk 5 2)) = Some (Normal true)
  /\ isWiderThan 0 sample_integral (mk 10 4) (DecimalV3 (mk 3 1)) = Some (Normal true).
Proof.
  assert (Ha : well_formed (mk 10 4)) by wf.
  assert (Hb : well_formed (mk 5 2)) by wf.
  assert (Hc : well_formed (mk 3 1)) by wf.
  split; [reflexivity|].
  apply (proj2 (proj2 (isWiderThan_partial_order 0 sample_integral Ha Hb Hc)));
    reflexivity.
Defined.

Lemma widerDecimalV3Type_result_witness :
  widerDecimalV3Type 0 (mk 10 5) (mk 8 2) = Normal (mk 10 0)
  /\ isWiderThan 0 sample_integral (mk 10 0) (DecimalV3 (mk 10 5))
     = Some (Normal false).
Proof.
  assert (Hl : well_formed (mk 10 5)) by wf.
  assert (Hr : well_formed (mk 8 2)) by wf.
  split; [reflexivity|].
  apply (proj2 (proj2 (proj2 (widerDecimalV3Type_result 0 sample_integral Hl Hr))
                  (mk 10 0) eq_refl)).
  simpl. lia.
Defined.

Lemma isWiderThan_integral_witness :
  isWiderThan 0 sample_integral (mk 12 2) IntegerType = Some (Normal true).
Proof.
  assert (Hd : well_formed (mk 12 2)) by wf.
  destruct (isWiderThan_integral 0 sample_integral Hd
              eq_refl eq_refl eq_refl eq_refl eq_refl)
    as [_ [_ [Hint _]]].
  apply Hint. simpl. lia.
Defined.

End DecimalV3Spec.

Module OperatorFrameRuns.

Import StreamingAggSourceOperator OperatorFrameSpec Samples.

(** The producer has finished and nothing is ready; the exhausted flag is
    not raised yet in the first environment and raised in the second. *)
Definition finished_empty_env : Env DataQueueState ScriptedNode unit :=
  mkEnv (mkDataQueue (BlockQueue.mk [] [] true false 8) false) at_eos tt
        (batch_of_rows 5 9) RUNNING.

Definition drained_env : Env DataQueueState ScriptedNode unit :=
  mkEnv (mkDataQueue (BlockQueue.mk [] [] true false 8) true) at_eos tt
        (batch_of_rows 5 9) RUNNING.

Lemma pop_into_exhaustion_is_dropped_witness :
  env_after (get_block finished_empty_env) = env_after (get_block drained_env)
  /\ events_of (get_block finished_empty_env)
     = Call_get_block_from_queue OK None :: events_of (get_block drained_env)
  /\ recycles (events_of (get_block finished_empty_env)) = 0.
Proof.
  assert (H1 : data_exhausted (_data_queue finished_empty_env) = false)
    by reflexivity.
  assert (H2 : get_block_from_queue (_data_queue finished_empty_env)
               = (OK, None, mkDataQueue (BlockQueue.mk [] [] true false 8) true))
    by reflexivity.
  assert (H3 : data_exhausted
                 (mkDataQueue (BlockQueue.mk [] [] true false 8) true) = true)
    by reflexivity.
  destruct (pop_into_exhaustion_is_dropped finished_empty_env H1 H2 H3)
    as [_ [Henv [Hev [_ Hrec]]]].
  split; [exact Henv|]. split; [exact Hev | exact Hrec].
Defined.

End OperatorFrameRuns.

(** ** DecimalV3Type.toSql *)

Module ToSqlSpec.

Import Ascii DecimalV3Type.

(** The characters [Integer.toString] writes: digits and the minus sign. *)
Definition is_int_char (c : Ascii.ascii) : bool :=
  existsb (Ascii.eqb c)
    (list_ascii_of_string "0123456789-").

Fixpoint all_chars (P : Ascii.ascii -> bool) (s : string) : bool :=
  match s with
  | EmptyString => true
  | String c rest => P c && all_chars P rest
  end.

Lemma uint_chars (u : Decimal.uint) :
  all_chars is_int_char (DecimalString.NilEmpty.string_of_uint u) = true.
Proof. induction u; simpl; try reflexivity; exact IHu. Qed.

Lemma Integer_toString_chars (i : Z) :
  all_chars is_int_char (Integer_toString i) = true.
Proof.
  unfold Integer_toString, DecimalString.NilZero.string_of_int,
    DecimalString.NilZero.string_of_uint.
  destruct (Z.to_int i) as [u|u]; destruct u; simpl; try reflexivity;
    apply uint_chars.
Qed.

Lemma Integer_toString_inj (i j : Z) :
  Integer_toString i = Integer_toString j -> i = j.
Proof.
  unfold Integer_toString. intros Heq.
  assert (Hnonnil : forall z, Z.to_int z <> Decimal.Pos Decimal.Nil
                              /\ Z.to_int z <> Decimal.Neg Decimal.Nil).
  { intros [|p|p]; simpl; split; try discriminate;
      intros Hp; injection Hp as Hp;
      now apply DecimalPos.Unsigned.to_uint_nonnil in Hp. }
  apply DecimalZ.to_int_inj.
  assert (Hsome : Some (Z.to_int i) = Some (Z.to_int j)).
  { rewrite <- (DecimalString.NilZero.isi (Z.to_int i)) by apply Hnonnil.
    rewrite <- (DecimalString.NilZero.isi (Z.to_int j)) by apply Hnonnil.
    now rewrite Heq. }
  now injection Hsome.
Qed.

(** Two texts that agree up to and after a separator which neither has
    before it. *)
Lemma split_at_separator (sep : Ascii.ascii) (p : string) :
  forall p' r r',
    all_chars (fun c => negb (Ascii.eqb c sep)) p = true ->
    all_chars (fun c => negb (Ascii.eqb c sep)) p' = true ->
    (p ++ String sep r)%string = (p' ++ String sep r')%string ->
    p = p' /\ r = r'.
Proof.
  induction p as [|c p IH]; intros [|c' p'] r r' Hp Hp' Heq; simpl in *.
  - injection Heq as ->. now split.
  - injection Heq as <- _. apply andb_true_iff in Hp' as [Hc _].
    now rewrite Ascii.eqb_refl in Hc.
  - injection Heq as -> _. apply andb_true_iff in Hp as [Hc _].
    now rewrite Ascii.eqb_refl in Hc.
  - injection Heq as -> Heq.
    apply andb_true_iff in Hp as [_ Hp]. apply andb_true_iff in Hp' as [_ Hp'].
    destruct (IH p' r r' Hp Hp' Heq) as [-> ->]. now split.
Qed.

Lemma int_chars_not (sep : Ascii.ascii) (s : string) :
  is_int_char sep = false ->
  all_chars is_int_char s = true ->
  all_chars (fun c => negb (Ascii.eqb c sep)) s = true.
Proof.
  intros Hsep. induction s as [|c s IH]; simpl; [reflexivity|].
  intros Hall. apply andb_true_iff in Hall as [Hc Hs].
  rewrite IH by assumption. rewrite andb_true_r.
  destruct (Ascii.eqb c sep) eqn:Heq; [|reflexivity].
  apply Ascii.eqb_eq in Heq. subst c. congruence.
Qed.

(** [toSql] tells the types apart: two types with the same SQL text have
    the same precision and the same scale. *)
Theorem toSql_injective (a b : t) : toSql a = toSql b -> a = b.
Proof.
  unfold toSql. simpl. intros Heq.
  injection Heq as Heq.
  apply (@split_at_separator ","%char) in Heq;
    try (apply int_chars_not; [reflexivity | apply Integer_toString_chars]).
  destruct Heq as [Hp Hs]. injection Hs as Hs.
  replace (Integer_toString (scale a) ++ ")")%string
    with (Integer_toString (scale a) ++ String ")"%char EmptyString)%string in Hs
    by reflexivity.
  replace (Integer_toString (scale b) ++ ")")%string
    with (Integer_toString (scale b) ++ String ")"%char EmptyString)%string in Hs
    by reflexivity.
  apply (@split_at_separator ")"%char) in Hs;
    try (apply int_chars_not; [reflexivity | apply Integer_toString_chars]).
  destruct Hs as [Hs _].
  apply Integer_toString_inj in Hp. apply Integer_toString_inj in Hs.
  destruct a, b. simpl in *. now subst.
Qed.

Lemma toSql_injective_witness :
  toSql (mk 10 2) = "DECIMAL(10, 2)" /\ mk (5 + 5) (1 + 1) = mk 10 2.
Proof.
  split; [reflexivity|].
  apply toSql_injective. reflexivity.
Defined.

End ToSqlSpec.
